(** * Neon Runner 3D: the per-frame game-state update of [src/App.jsx]

    The sources hold two builds of the game: the build with bosses, enemy
    projectiles and jumping (module [Boss] below), and the build that calls
    itself the stable local build (module [Stable]).  Both define the tick
    as the state updater passed to [set] inside [useFrame] in [GameLoop].

    Numbers.  JavaScript numbers are modelled as exact rationals ([Q]) for the
    real-valued quantities (time, positions, hit points, damage) and as
    integers ([Z]) for the quantities the code only ever builds from integer
    literals with [+] and [-] (wave, score, level, xp, ids, pierce counts,
    difficulty).  Rounding error, NaN and infinities are outside the model;
    a division by zero, which the code never performs on the states it
    builds, gives 0 here.

    Host functions.  [Math.sqrt], [Math.cos], [Math.sin] and [Math.PI] are
    provided by the JavaScript host; they are the fields of the class [Host].
    [Math.random], [performance.now], the keyboard map, the look angles and
    the pointer-lock test are sampled by the tick; they are the fields of
    [Input].  The camera and the avatar refs are written by the tick but are
    not part of the session state and are left out. *)

From Stdlib Require Import QArith Qround Lqa ZArith List Lia Bool.
Import ListNotations.

Local Open Scope Q_scope.

(* ------------------------------------------------------------------ *)
(** ** Numbers *)

Definition Qleb (x y : Q) : bool := Qle_bool x y.
Definition Qltb (x y : Q) : bool := negb (Qle_bool y x).
Definition Qeqb (x y : Q) : bool := Qeq_bool x y.

Infix "<=?" := Qleb (at level 70, no associativity) : Q_scope.
Infix "<?" := Qltb (at level 70, no associativity) : Q_scope.
Infix "=?" := Qeqb (at level 70, no associativity) : Q_scope.

(** [Math.max], [Math.min], [Math.round] and [Math.floor]. *)
Definition Math_max (a b : Q) : Q := if a <? b then b else a.
Definition Math_min (a b : Q) : Q := if b <? a then b else a.
Definition Math_round (x : Q) : Q := inject_Z (Qfloor (x + 0.5)).
Definition Math_floor (x : Q) : Z := Qfloor x.

(** [const clamp = (v, min, max) => Math.max(min, Math.min(max, v))] *)
Definition clamp (v min max : Q) : Q := Math_max min (Math_min max v).

(** The host's numeric functions. *)
Class Host := {
  Math_sqrt : Q -> Q;
  Math_cos : Q -> Q;
  Math_sin : Q -> Q;
  Math_PI : Q
}.

(** [const rnd = (a, b) => Math.random() * (b - a) + a], on the draw [u]. *)
Definition rnd (u a b : Q) : Q := u * (b - a) + a.

(* ------------------------------------------------------------------ *)
(** ** Vectors ([THREE.Vector3]) *)

Module Vector3.

Record t := mk { x : Q; y : Q; z : Q }.

Definition setY (v : t) (y' : Q) : t := mk (x v) y' (z v).
Definition add (a b : t) : t := mk (x a + x b) (y a + y b) (z a + z b).
Definition sub (a b : t) : t := mk (x a - x b) (y a - y b) (z a - z b).
Definition multiplyScalar (a : t) (k : Q) : t := mk (x a * k) (y a * k) (z a * k).
Definition addScaledVector (a v : t) (k : Q) : t :=
  mk (x a + x v * k) (y a + y v * k) (z a + z v * k).
Definition lengthSq (a : t) : Q := x a * x a + y a * y a + z a * z a.
Definition distanceToSquared (a b : t) : Q := lengthSq (sub a b).

Section WithHost.
Context {host : Host}.

Definition length (a : t) : Q := Math_sqrt (lengthSq a).
Definition distanceTo (a b : t) : Q := Math_sqrt (distanceToSquared a b).

(** [normalize()] is [divideScalar(length() || 1)]: a zero length divides by 1. *)
Definition normalize (a : t) : t :=
  let l := length a in
  multiplyScalar a (1 / (if l =? 0 then 1 else l)).
Definition setLength (a : t) (l : Q) : t := multiplyScalar (normalize a) l.

(** [new THREE.Quaternion().setFromEuler(new THREE.Euler(ex, ey, 0, "YXZ"))]
    followed by [applyQuaternion]. *)
Definition applyEulerYXZ (v : t) (ex ey : Q) : t :=
  let c1 := Math_cos (ex / 2) in let c2 := Math_cos (ey / 2) in
  let c3 := Math_cos (0 / 2) in
  let s1 := Math_sin (ex / 2) in let s2 := Math_sin (ey / 2) in
  let s3 := Math_sin (0 / 2) in
  let qx := s1 * c2 * c3 + c1 * s2 * s3 in
  let qy := c1 * s2 * c3 - s1 * c2 * s3 in
  let qz := c1 * c2 * s3 - s1 * s2 * c3 in
  let qw := c1 * c2 * c3 + s1 * s2 * s3 in
  let tx := 2 * (qy * z v - qz * y v) in
  let ty := 2 * (qz * x v - qx * z v) in
  let tz := 2 * (qx * y v - qy * x v) in
  mk (x v + qw * tx + qy * tz - qz * ty)
     (y v + qw * ty + qz * tx - qx * tz)
     (z v + qw * tz + qx * ty - qy * tx).

End WithHost.
End Vector3.

(** [const vec3 = (x = 0, y = 0, z = 0) => new THREE.Vector3(x, y, z)] *)
Definition vec3 (x y z : Q) : Vector3.t := Vector3.mk x y z.

(* ------------------------------------------------------------------ *)
(** ** The session state *)

Module Player.
Record t := mk {
  pos : Vector3.t; velY : Q; speed : Q; dashCooldown : Q;
  maxHp : Q; hp : Q; magnet : Q; damage : Q; firerate : Q;
  bulletSpeed : Q; pierce : Z
}.
Definition set_pos (p : t) (v : Vector3.t) : t :=
  mk v (velY p) (speed p) (dashCooldown p) (maxHp p) (hp p) (magnet p)
     (damage p) (firerate p) (bulletSpeed p) (pierce p).
Definition set_velY (p : t) (v : Q) : t :=
  mk (pos p) v (speed p) (dashCooldown p) (maxHp p) (hp p) (magnet p)
     (damage p) (firerate p) (bulletSpeed p) (pierce p).
Definition set_dashCooldown (p : t) (v : Q) : t :=
  mk (pos p) (velY p) (speed p) v (maxHp p) (hp p) (magnet p)
     (damage p) (firerate p) (bulletSpeed p) (pierce p).
Definition set_hp (p : t) (v : Q) : t :=
  mk (pos p) (velY p) (speed p) (dashCooldown p) (maxHp p) v (magnet p)
     (damage p) (firerate p) (bulletSpeed p) (pierce p).
End Player.

(** An enemy.  The fields after [isBoss] exist on bosses only; on other
    enemies they are never read.  The stable build's enemies carry
    [id], [pos], [hp], [radius] and [speed] only. *)
Module Enemy.
Record t := mk {
  id : Z; pos : Vector3.t; hp : Q; maxHp : Q; radius : Q; speed : Q;
  isBoss : bool;
  velY : Q; jumpCooldown : Q; leapTime : Q; leapDir : Vector3.t;
  shootCooldown : Q
}.
Definition set_pos (e : t) (v : Vector3.t) : t :=
  mk (id e) v (hp e) (maxHp e) (radius e) (speed e) (isBoss e)
     (velY e) (jumpCooldown e) (leapTime e) (leapDir e) (shootCooldown e).
Definition set_hp (e : t) (v : Q) : t :=
  mk (id e) (pos e) v (maxHp e) (radius e) (speed e) (isBoss e)
     (velY e) (jumpCooldown e) (leapTime e) (leapDir e) (shootCooldown e).
End Enemy.

(** A player bullet, and (without [pierceLeft]) an enemy bullet. *)
Module Bullet.
Record t := mk {
  id : Z; pos : Vector3.t; vel : Vector3.t; life : Q;
  pierceLeft : Z; damage : Q
}.
Definition set_life (b : t) (v : Q) : t :=
  mk (id b) (pos b) (vel b) v (pierceLeft b) (damage b).
Definition set_pierceLeft (b : t) (v : Z) : t :=
  mk (id b) (pos b) (vel b) (life b) v (damage b).
(** [{ ...b, pos: b.pos.clone().addScaledVector(b.vel, dt), life: b.life - dt }] *)
Definition advance (dt : Q) (b : t) : t :=
  mk (id b) (Vector3.addScaledVector (pos b) (vel b) dt) (vel b)
     (life b - dt) (pierceLeft b) (damage b).
End Bullet.

(** The pickup types: the strings "xp", "heart" and "shield". *)
Inductive PickupType := type_xp | type_heart | type_shield.

Module Pickup.
Record t := mk { id : Z; pos : Vector3.t; ttl : Q; type : PickupType }.
End Pickup.

Record State := mkState {
  playing : bool; paused : bool; gameOver : bool;
  wave : Z; time : Q; score : Z; level : Z; xp : Z;
  player : Player.t;
  enemies : list Enemy.t;
  bullets : list Bullet.t;
  eBullets : list Bullet.t;
  pickups : list Pickup.t;
  nextId : Z; lastShot : Q; difficulty : Z;
  bossActive : bool; bossDefeatedAtWave : Z; hitFlash : Q
}.

(** What the tick samples from its surroundings: the frame delta [dtx], the
    entries of [keys.current], [LOOK.yaw] and [LOOK.pitch], the clock [now]
    (in seconds), the pointer-lock test [isLocked], and [random k], the
    value of the [k]-th call of [Math.random()] in this tick. *)
Record Input := mkInput {
  dtx : Q;
  KeyW : bool; KeyS : bool; KeyA : bool; KeyD : bool;
  ShiftLeft : bool; Space : bool; MouseLeft : bool;
  yaw : Q; pitch : Q;
  now : Q;
  isLocked : bool;
  random : nat -> Q
}.

(** The frame delta the tick works with: [Math.min(0.05, dtx)]. *)
Definition dtOf (i : Input) : Q := Math_min 0.05 (dtx i).

(** A tick does something only if the session is playing, not paused and
    not over. *)
Definition active (s : State) : bool :=
  playing s && negb (paused s) && negb (gameOver s).

(* ------------------------------------------------------------------ *)
(** ** Parts of the tick shared by the two builds *)

Section Shared.
Context {host : Host}.

(** The movement direction: WASD, rotated by the yaw only, flattened. *)
Definition worldDir (i : Input) : Vector3.t :=
  let move := vec3 0 0 0 in
  let move := if KeyW i then vec3 (Vector3.x move) (Vector3.y move) (Vector3.z move - 1) else move in
  let move := if KeyS i then vec3 (Vector3.x move) (Vector3.y move) (Vector3.z move + 1) else move in
  let move := if KeyA i then vec3 (Vector3.x move - 1) (Vector3.y move) (Vector3.z move) else move in
  let move := if KeyD i then vec3 (Vector3.x move + 1) (Vector3.y move) (Vector3.z move) else move in
  let move := if 0 <? Vector3.lengthSq move then Vector3.normalize move else move in
  Vector3.normalize (Vector3.setY (Vector3.applyEulerYXZ move 0 (yaw i)) 0).

(** [willDash = keys.current["ShiftLeft"] && s.player.dashCooldown === 0] *)
Definition willDash (i : Input) (p : Player.t) : bool :=
  ShiftLeft i && (Player.dashCooldown p =? 0).

(** [nextPos]: the step along [worldDir], kept inside the arena disc. *)
Definition nextPos (i : Input) (dt : Q) (p : Player.t) : Vector3.t :=
  let speed := Player.speed p * (if willDash i p then 1.8 else 1) in
  let nextPos := Vector3.addScaledVector (Player.pos p) (worldDir i) (speed * dt) in
  let arenaR := 35 in
  if arenaR - 1 <? Vector3.length nextPos then Vector3.setLength nextPos (arenaR - 1)
  else nextPos.

(** The camera's forward vector, [(0,0,-1)] turned by pitch and yaw. *)
Definition forward (i : Input) : Vector3.t :=
  Vector3.normalize (Vector3.applyEulerYXZ (vec3 0 0 (-1)) (pitch i) (yaw i)).

(** [wantShoot && now - s.lastShot >= interval] *)
Definition shoots (i : Input) (p : Player.t) (lastShot : Q) : bool :=
  let interval := 1 / Player.firerate p in
  (isLocked i && MouseLeft i) && (interval <=? now i - lastShot).

(** The bullet pushed by the shooting step, with id [id]. *)
Definition newBullet (i : Input) (p : Player.t) (id : Z) : Bullet.t :=
  let fwd := forward i in
  let pos := Vector3.add (Vector3.addScaledVector (Player.pos p) fwd 1.0) (vec3 0 0.1 0) in
  let vel := Vector3.multiplyScalar fwd (Player.bulletSpeed p) in
  Bullet.mk id pos vel 1.8 (Player.pierce p) (Player.damage p).

(** Bullets step: advance, then keep what is alive and within [range]. *)
Definition bulletsStep (dt range : Q) (bs : list Bullet.t) : list Bullet.t :=
  filter (fun b => (0 <? Bullet.life b) && (Vector3.length (Bullet.pos b) <? range))
         (map (Bullet.advance dt) bs).

(** Seek-the-player steering of one enemy: returns [toP] and the moved enemy. *)
Definition seek (dt : Q) (ppos : Vector3.t) (e : Enemy.t) : Vector3.t * Enemy.t :=
  let toP := Vector3.setY (Vector3.sub ppos (Enemy.pos e)) 0 in
  let toP := if 0 <? Vector3.lengthSq toP then Vector3.normalize toP else toP in
  (toP, Enemy.set_pos e (Vector3.addScaledVector (Enemy.pos e) toP (Enemy.speed e * dt))).

(** The hit test of the collision loop. *)
Definition hits (b : Bullet.t) (e : Enemy.t) : bool :=
  Vector3.distanceTo (Bullet.pos b) (Enemy.pos e) <? Enemy.radius e + 0.2.

(** The inner loop of the collision step, for one bullet [b]:
    [for (const e of s.enemies) { if (e.hp <= 0) continue; if (hit) {...} }].
    [scoreOf] and [xpOf] are what a kill adds to [scoreAdd] and [xpAdd].
    Returns the bullet, the enemies, and the score and xp added. *)
Fixpoint hitEnemies (scoreOf xpOf : Enemy.t -> Z) (b : Bullet.t) (es : list Enemy.t)
  : Bullet.t * list Enemy.t * Z * Z :=
  match es with
  | [] => (b, [], 0%Z, 0%Z)
  | e :: rest =>
      if Enemy.hp e <=? 0 then
        let '(b', rest', sc, xa) := hitEnemies scoreOf xpOf b rest in (b', e :: rest', sc, xa)
      else if hits b e then
        let e' := Enemy.set_hp e (Enemy.hp e - Bullet.damage b) in
        let b1 := if (Bullet.pierceLeft b <=? 0)%Z then Bullet.set_life b (-1)
                  else Bullet.set_pierceLeft b (Bullet.pierceLeft b - 1) in
        let died := Enemy.hp e' <=? 0 in
        let '(b', rest', sc, xa) := hitEnemies scoreOf xpOf b1 rest in
        (b', e' :: rest',
         ((if died then scoreOf e' else 0) + sc)%Z,
         ((if died then xpOf e' else 0) + xa)%Z)
      else
        let '(b', rest', sc, xa) := hitEnemies scoreOf xpOf b rest in (b', e :: rest', sc, xa)
  end.

(** The outer loop, [for (const b of s.bullets)]. *)
Fixpoint collide (scoreOf xpOf : Enemy.t -> Z) (bs : list Bullet.t) (es : list Enemy.t)
  : list Bullet.t * list Enemy.t * Z * Z :=
  match bs with
  | [] => ([], es, 0%Z, 0%Z)
  | b :: rest =>
      let '(b', es1, sc1, xa1) := hitEnemies scoreOf xpOf b es in
      let '(rest', es2, sc2, xa2) := collide scoreOf xpOf rest es1 in
      (b' :: rest', es2, (sc1 + sc2)%Z, (xa1 + xa2)%Z)
  end.

(** [s.bullets.filter((b) => b.life > 0)] *)
Definition liveBullets (bs : list Bullet.t) : list Bullet.t :=
  filter (fun b => 0 <? Bullet.life b) bs.

(** The experience threshold and the two closing decisions of the tick. *)
Definition need (level : Z) : Z := (10 + (level - 1) * 6)%Z.
Definition levelUp (xp xpAdd level : Z) : Z * bool :=
  let newXp := (xp + xpAdd)%Z in
  if (need level <=? newXp)%Z then ((newXp - need level)%Z, true) else (newXp, false).
Definition newWave (time : Q) (wave : Z) : Z :=
  if 25 + inject_Z wave * 18 <? time then (wave + 1)%Z else wave.

End Shared.

(* ------------------------------------------------------------------ *)
(** ** The build with bosses (first [GameLoop] of [src/App.jsx]) *)

Module Boss.
Section WithHost.
Context {host : Host}.

(** Player kinematics: dash cooldown decay, movement, dash, jump and gravity. *)
Definition movePlayer (i : Input) (dt : Q) (p0 : Player.t) : Player.t :=
  let p := Player.set_dashCooldown p0 (Math_max 0 (Player.dashCooldown p0 - dt)) in
  let dash := willDash i p in
  let np := nextPos i dt p in
  let p := if dash then Player.set_dashCooldown p 1.0 else p in
  let p := Player.set_pos p (vec3 (Vector3.x np) (Vector3.y (Player.pos p)) (Vector3.z np)) in
  let groundY := 1 in
  let g := 18 in
  let jumpSpeed := 7 in
  let onGround := (Vector3.y (Player.pos p) <=? groundY + 1e-3) && (Player.velY p =? 0) in
  let p := if Space i && onGround then Player.set_velY p jumpSpeed else p in
  let p := Player.set_velY p (Player.velY p - g * dt) in
  let p := Player.set_pos p (Vector3.setY (Player.pos p)
                               (Vector3.y (Player.pos p) + Player.velY p * dt)) in
  if Vector3.y (Player.pos p) <? groundY
  then Player.set_velY (Player.set_pos p (Vector3.setY (Player.pos p) groundY)) 0
  else p.

(** [scoreAdd += e.isBoss ? 200 : 15; xpAdd += e.isBoss ? 5 : 1] *)
Definition scoreAward (e : Enemy.t) : Z := if Enemy.isBoss e then 200%Z else 15%Z.
Definition xpAward (e : Enemy.t) : Z := if Enemy.isBoss e then 5%Z else 1%Z.

(** [bossWave] and the guard of the boss spawn. *)
Definition bossWave (wave : Z) : bool := (Z.rem wave 5 =? 0)%Z.
Definition bossAlive (es : list Enemy.t) : bool := existsb Enemy.isBoss es.
Definition bossDue (s : State) : bool :=
  bossWave (wave s) && negb (bossActive s)
  && negb (bossDefeatedAtWave s =? wave s)%Z && negb (bossAlive (enemies s)).

(** The boss pushed by the boss spawn; it uses four draws, from [r] on. *)
Definition newBoss (i : Input) (r : nat) (wave difficulty id : Z) : Enemy.t :=
  let tier := Z.max 1 (Math_floor (inject_Z wave / 5)) in
  let baseHp := 260 + 150 * inject_Z tier in
  let hp := Math_round (baseHp * (1 + 0.25 * inject_Z difficulty)) in
  let speedB := 2.6 + 0.12 * inject_Z wave + 0.25 * inject_Z difficulty in
  let radius := 2.2 + 0.05 * inject_Z wave in
  let pos := vec3 (rnd (random i r) (-18) 18) 1 (rnd (random i (r + 1)) (-18) 18) in
  Enemy.mk id pos hp hp radius speedB true 0
           (rnd (random i (r + 2)) 1.2 2.0) 0 (vec3 0 0 0)
           (rnd (random i (r + 3)) 0.5 1.0).

(** Boss spawn: returns the enemies, [nextId], [bossActive] and the cursor
    into the random draws. *)
Definition bossSpawn (i : Input) (s : State) (r : nat)
  : list Enemy.t * Z * bool * nat :=
  if bossDue s
  then ([newBoss i r (wave s) (difficulty s) (nextId s)],
        (nextId s + 1)%Z, true, (r + 4)%nat)
  else (enemies s, nextId s, bossActive s, r).

(** The enemy pushed by the normal spawner, at angle [ang]. *)
Definition newEnemy (ang : Q) (wave difficulty id : Z) : Enemy.t :=
  let r := 33 in
  let pos := vec3 (Math_cos ang * r) 1 (Math_sin ang * r) in
  let hp := Math_round (18 + (inject_Z wave - 1) * 6 * (0.7 + 0.3 * inject_Z difficulty)) in
  let speedE := 3 + (inject_Z wave - 1) * 0.2 + inject_Z difficulty * 0.3 in
  Enemy.mk id pos hp hp 0.9 speedE false 0 0 0 (vec3 0 0 0) 0.

Definition spawnChance (dt : Q) (wave : Z) : Q :=
  let spawnRate := 1.2 in
  dt / (spawnRate / (1 + (inject_Z wave - 1) * 0.15)).

(** Normal spawns, skipped while a boss wave has its boss active. *)
Definition spawnNormal (i : Input) (dt : Q) (wave difficulty : Z) (active : bool)
  (es : list Enemy.t) (nid : Z) (r : nat) : list Enemy.t * Z * nat :=
  if negb (bossWave wave) || negb active then
    if (random i r <? spawnChance dt wave)
       && (Z.of_nat (List.length (filter (fun e => negb (Enemy.isBoss e)) es)) <? 45)%Z
    then
      let ang := rnd (random i (r + 1)) 0 (Math_PI * 2) in
      (es ++ [newEnemy ang wave difficulty nid], (nid + 1)%Z, (r + 2)%nat)
    else (es, nid, (r + 1)%nat)
  else (es, nid, r).

(** One iteration of the enemy loop: steering and, for a boss, the leap and
    the shot.  Returns the enemy, the enemy bullet fired (if any), [nextId]
    and the cursor. *)
Definition enemyStep (i : Input) (dt : Q) (wave difficulty : Z) (ppos : Vector3.t)
  (e0 : Enemy.t) (nid : Z) (r : nat) : Enemy.t * list Bullet.t * Z * nat :=
  let '(toP, e) := seek dt ppos e0 in
  if Enemy.isBoss e then
    let jc := Enemy.jumpCooldown e - dt in
    let ground := 1 in
    let gBoss := 22 in
    let leap := (jc <=? 0) && (Vector3.distanceTo (Enemy.pos e) ppos <? 24) in
    let velY := if leap then 7.8 + 0.2 * inject_Z wave else Enemy.velY e in
    let leapDir := if leap then toP else Enemy.leapDir e in
    let leapTime := if leap then 0.55 + Math_min 0.4 (0.02 * inject_Z wave)
                    else Enemy.leapTime e in
    let jc := if leap then rnd (random i r) 1.3 2.5 else jc in
    let r := if leap then (r + 1)%nat else r in
    let leaping := 0 <? leapTime in
    let leapSpeed := 6.5 + 0.22 * inject_Z wave + 0.7 * inject_Z difficulty in
    let pos := if leaping then Vector3.addScaledVector (Enemy.pos e) leapDir (leapSpeed * dt)
               else Enemy.pos e in
    let leapTime := if leaping then leapTime - dt else leapTime in
    let velY := velY - gBoss * dt in
    let pos := Vector3.setY pos (Vector3.y pos + velY * dt) in
    let landed := Vector3.y pos <? ground in
    let pos := if landed then Vector3.setY pos ground else pos in
    let velY := if landed then 0 else velY in
    let sc := Enemy.shootCooldown e - dt in
    if sc <=? 0 then
      let dir := Vector3.normalize (Vector3.sub ppos pos) in
      let speed := 7 + 0.65 * inject_Z wave + 0.75 * inject_Z difficulty in
      let posB := Vector3.add pos (Vector3.multiplyScalar dir (Enemy.radius e + 0.4)) in
      let velB := Vector3.multiplyScalar dir speed in
      let shot := Bullet.mk nid posB velB 3.5 0 (18 + 4 * inject_Z difficulty) in
      let base := 1.7 in
      let sc := Math_max 0.4 (base / (1 + 0.08 * inject_Z wave + 0.25 * inject_Z difficulty)) in
      (Enemy.mk (Enemy.id e) pos (Enemy.hp e) (Enemy.maxHp e) (Enemy.radius e)
                (Enemy.speed e) (Enemy.isBoss e) velY jc leapTime leapDir sc,
       [shot], (nid + 1)%Z, r)
    else
      (Enemy.mk (Enemy.id e) pos (Enemy.hp e) (Enemy.maxHp e) (Enemy.radius e)
                (Enemy.speed e) (Enemy.isBoss e) velY jc leapTime leapDir sc,
       [], nid, r)
  else (e, [], nid, r).

(** The enemy loop, [for (const e of s.enemies)]. *)
Fixpoint enemiesStep (i : Input) (dt : Q) (wave difficulty : Z) (ppos : Vector3.t)
  (es : list Enemy.t) (nid : Z) (r : nat) : list Enemy.t * list Bullet.t * Z * nat :=
  match es with
  | [] => ([], [], nid, r)
  | e :: rest =>
      let '(e', shot, nid1, r1) := enemyStep i dt wave difficulty ppos e nid r in
      let '(rest', shots, nid2, r2) := enemiesStep i dt wave difficulty ppos rest nid1 r1 in
      (e' :: rest', shot ++ shots, nid2, r2)
  end.

(** Enemy bullets: advance and cull, then hit the player. *)
Definition eBulletHits (ppos : Vector3.t) (b : Bullet.t) : bool :=
  Vector3.distanceTo (Bullet.pos b) ppos <? 0.7.
Definition eBulletsStep (dt : Q) (ppos : Vector3.t) (bs : list Bullet.t)
  : list Bullet.t * Q :=
  let bs := bulletsStep dt 70 bs in
  let hpLoss := fold_left (fun acc b => if eBulletHits ppos b then acc + Bullet.damage b else acc)
                          bs 0 in
  let bs := map (fun b => if eBulletHits ppos b then Bullet.set_life b (-1) else b) bs in
  (liveBullets bs, hpLoss).

(** The loot roll of a dead enemy. *)
Definition lootType (isBoss : bool) (roll : Q) : PickupType :=
  if isBoss then (if roll <? 0.4 then type_heart else if roll <? 0.7 then type_shield else type_xp)
  else (if roll <? 0.1 then type_heart else if roll <? 0.18 then type_shield else type_xp).

(** The death sweep, [for (let i = s.enemies.length - 1; i >= 0; i--)]: the
    tail of the list is visited before its head.  It threads the pickups,
    [nextId], [bossActive], [bossDefeatedAtWave] and the cursor. *)
Fixpoint deathSweep (i : Input) (wave : Z) (es : list Enemy.t)
  (st : list Pickup.t * Z * bool * Z * nat)
  : list Enemy.t * (list Pickup.t * Z * bool * Z * nat) :=
  match es with
  | [] => ([], st)
  | e :: rest =>
      let '(rest', (pk, nid, active, defeated, r)) := deathSweep i wave rest st in
      if Enemy.hp e <=? 0 then
        let roll := random i r in
        let '(pk, nid) :=
          if roll <? (if Enemy.isBoss e then 1.0 else 0.6)
          then (pk ++ [Pickup.mk nid (Enemy.pos e) (if Enemy.isBoss e then 18 else 10)
                                 (lootType (Enemy.isBoss e) roll)],
                (nid + 1)%Z)
          else (pk, nid) in
        let '(active, defeated) := if Enemy.isBoss e then (false, wave) else (active, defeated) in
        (rest', (pk, nid, active, defeated, S r))
      else (e :: rest', (pk, nid, active, defeated, r))
  end.

(** Contact damage of the surviving enemies. *)
Definition contactDamage (dt : Q) (difficulty : Z) (ppos : Vector3.t) (es : list Enemy.t) (hpLoss : Q) : Q :=
  fold_left (fun acc e =>
               let dmg := (if Enemy.isBoss e then 25 else 10) * inject_Z difficulty * dt in
               if Vector3.distanceTo (Enemy.pos e) ppos <? Enemy.radius e + 0.8
               then acc + dmg else acc)
            es hpLoss.

(** The pickup sweep, again from the last index down.  It threads the
    player's hit points and the experience added; [None] is a removed pickup. *)
Definition pickupStep (dt : Q) (p : Player.t) (k : Pickup.t) (hp : Q) (xpAdd : Z)
  : option Pickup.t * Q * Z :=
  let ttl := Pickup.ttl k - dt in
  if ttl <=? 0 then (None, hp, xpAdd) else
  let d0 := Vector3.distanceTo (Pickup.pos k) (Player.pos p) in
  let pos :=
    if d0 <? 2.5 * Player.magnet p then
      let dirP := Vector3.normalize (Vector3.setY (Vector3.sub (Player.pos p) (Pickup.pos k)) 0) in
      Vector3.addScaledVector (Pickup.pos k) dirP ((10 + 6 * Player.magnet p) * dt)
    else Pickup.pos k in
  let d1 := Vector3.distanceTo pos (Player.pos p) in
  if d1 <? 1.0 then
    let xpAdd := match Pickup.type k with type_xp => (xpAdd + 1)%Z | _ => xpAdd end in
    let hp := match Pickup.type k with
              | type_heart => clamp (hp + 15) 0 (Player.maxHp p)
              | type_shield => clamp (hp + 8) 0 (Player.maxHp p)
              | type_xp => hp
              end in
    (None, hp, xpAdd)
  else (Some (Pickup.mk (Pickup.id k) pos ttl (Pickup.type k)), hp, xpAdd).

Fixpoint pickupSweep (dt : Q) (p : Player.t) (ks : list Pickup.t) (hp : Q) (xpAdd : Z)
  : list Pickup.t * Q * Z :=
  match ks with
  | [] => ([], hp, xpAdd)
  | k :: rest =>
      let '(rest', hp1, xa1) := pickupSweep dt p rest hp xpAdd in
      let '(k', hp2, xa2) := pickupStep dt p k hp1 xa1 in
      (match k' with Some k1 => k1 :: rest' | None => rest' end, hp2, xa2)
  end.

(** The first half of the tick, up to and including the enemy loop: the
    mutated copy [s] as it stands before the collision step, and the cursor
    into the random draws. *)
Definition advance (i : Input) (dt : Q) (prev : State) : State * nat :=
  let time' := time prev + dt in
  let hitFlash' := Math_max 0 (hitFlash prev - 2 * dt) in
  let p := movePlayer i dt (player prev) in
  let '(es, nid, active, r) := bossSpawn i prev 0%nat in
  let shoot := shoots i p (lastShot prev) in
  let bs := if shoot then bullets prev ++ [newBullet i p nid] else bullets prev in
  let nid := if shoot then (nid + 1)%Z else nid in
  let lastShot' := if shoot then now i else lastShot prev in
  let bs := bulletsStep dt 60 bs in
  let '(es, nid, r) := spawnNormal i dt (wave prev) (difficulty prev) active es nid r in
  let '(es, shots, nid, r) :=
    enemiesStep i dt (wave prev) (difficulty prev) (Player.pos p) es nid r in
  (mkState (playing prev) (paused prev) (gameOver prev) (wave prev) time'
           (score prev) (level prev) (xp prev) p
           es bs (eBullets prev ++ shots) (pickups prev) nid lastShot' (difficulty prev)
           active (bossDefeatedAtWave prev) hitFlash',
   r).

(** The collision step, the enemy bullets, the death sweep and the contact
    damage: the mutated copy [s], and the locals [scoreAdd], [xpAdd] and
    [newHp] as they stand before the pickup sweep. *)
Definition combat (i : Input) (dt : Q) (s : State) (r : nat) : State * Z * Z * Q :=
  let p := player s in
  let '(bs, es, scoreAdd, xpAdd) := collide scoreAward xpAward (bullets s) (enemies s) in
  let bs := liveBullets bs in
  let '(ebs, hpLoss) := eBulletsStep dt (Player.pos p) (eBullets s) in
  let '(es, (pk, nid, active, defeated, r)) :=
    deathSweep i (wave s) es (pickups s, nextId s, bossActive s, bossDefeatedAtWave s, r) in
  let hpLoss := contactDamage dt (difficulty s) (Player.pos p) es hpLoss in
  let hitFlash' := if 0 <? hpLoss then 1 else hitFlash s in
  let newHp := clamp (Player.hp p - hpLoss) 0 (Player.maxHp p) in
  (mkState (playing s) (paused s) (gameOver s) (wave s) (time s)
           (score s) (level s) (xp s) p
           es bs ebs pk nid (lastShot s) (difficulty s) active defeated hitFlash',
   scoreAdd, xpAdd, newHp).

(** The pickup sweep on the copy [s], continuing the local [xpAdd]. *)
Definition collect (dt : Q) (s : State) (xpAdd : Z) : State * Z :=
  let p := player s in
  let '(pk, hp', xpAdd) := pickupSweep dt p (pickups s) (Player.hp p) xpAdd in
  (mkState (playing s) (paused s) (gameOver s) (wave s) (time s)
           (score s) (level s) (xp s) (Player.set_hp p hp')
           (enemies s) (bullets s) (eBullets s) pk (nextId s) (lastShot s) (difficulty s)
           (bossActive s) (bossDefeatedAtWave s) (hitFlash s),
   xpAdd).

(** The second half of the tick: the copy [s] as it stands at the [return],
    and the locals [scoreAdd], [xpAdd] and [newHp].  [newHp] is computed
    before the pickup sweep. *)
Definition resolve (i : Input) (dt : Q) (s : State) (r : nat) : State * Z * Z * Q :=
  let '(s1, scoreAdd, xpAdd, newHp) := combat i dt s r in
  let '(s2, xpAdd) := collect dt s1 xpAdd in
  (s2, scoreAdd, xpAdd, newHp).

Definition simulate (i : Input) (dt : Q) (prev : State) : State * Z * Z * Q :=
  let '(s, r) := advance i dt prev in resolve i dt s r.

(** The [return { ...s, wave: newWave, ..., player: { ...s.player, hp: newHp, ... },
    gameOver: over }] of the tick. *)
Definition publish (s : State) (scoreAdd xpAdd : Z) (newHp : Q) : State :=
  let lu := levelUp (xp s) xpAdd (level s) in
  let over := newHp <=? 0 in
  mkState (playing s) (paused s) over (newWave (time s) (wave s)) (time s)
          (score s + scoreAdd)%Z (level s + (if snd lu then 1 else 0))%Z (fst lu)
          (Player.set_hp (player s) newHp)
          (enemies s) (bullets s) (eBullets s) (pickups s)
          (nextId s) (lastShot s) (difficulty s)
          (bossActive s) (bossDefeatedAtWave s) (hitFlash s).

(** The tick: the updater given to [set] in [useFrame]. *)
Definition tick (i : Input) (prev : State) : State :=
  let dt := dtOf i in
  if negb (playing prev) || paused prev || gameOver prev then prev
  else
    let '(s, scoreAdd, xpAdd, newHp) := simulate i dt prev in
    publish s scoreAdd xpAdd newHp.


(** Names for what the tick computes on the way, used to state its
    properties: the copy [s] before the collision step, the enemies right
    after it, the copy [s] and the local [xpAdd] before the pickup sweep,
    what the pickup sweep alone adds to [xpAdd], the copy [s] at the
    [return], and the locals [scoreAdd] and [xpAdd] of the whole tick. *)
Definition atCollision (i : Input) (prev : State) : State := fst (advance i (dtOf i) prev).
Definition collided (i : Input) (prev : State) : list Enemy.t :=
  let s := atCollision i prev in
  let '(_, es, _, _) := collide scoreAward xpAward (bullets s) (enemies s) in es.
Definition atPickups (i : Input) (prev : State) : State :=
  let '(s, r) := advance i (dtOf i) prev in
  let '(s1, _, _, _) := combat i (dtOf i) s r in s1.
Definition killXp (i : Input) (prev : State) : Z :=
  let '(s, r) := advance i (dtOf i) prev in
  let '(_, _, xa, _) := combat i (dtOf i) s r in xa.
Definition pickedXp (i : Input) (prev : State) : Z :=
  snd (collect (dtOf i) (atPickups i prev) 0).
Definition atReturn (i : Input) (prev : State) : State :=
  let '(s, _, _, _) := simulate i (dtOf i) prev in s.
Definition scoreAdd (i : Input) (prev : State) : Z :=
  let '(_, sc, _, _) := simulate i (dtOf i) prev in sc.
Definition xpAdd (i : Input) (prev : State) : Z :=
  let '(_, _, xa, _) := simulate i (dtOf i) prev in xa.

Definition run (inputs : list Input) (s : State) : State :=
  fold_left (fun s i => tick i s) inputs s.

End WithHost.

(** *** The session outside the tick ([App]) *)

Definition startPlayer : Player.t :=
  Player.mk (vec3 0 1 0) 0 10 0 100 100 1 10 7 35 0.

(** [useGameState]'s initial state, and [start] (which keeps the difficulty). *)
Definition initial : State :=
  mkState false false false 1 0 0 1 0 startPlayer [] [] [] [] 1 0 2 false 0 0.
Definition start (s : State) : State :=
  mkState true false false 1 0 0 1 0 startPlayer [] [] [] [] 1 0 (difficulty s) false 0 0.

Definition set_paused (s : State) (b : bool) : State :=
  mkState (playing s) b (gameOver s) (wave s) (time s) (score s) (level s) (xp s)
          (player s) (enemies s) (bullets s) (eBullets s) (pickups s) (nextId s)
          (lastShot s) (difficulty s) (bossActive s) (bossDefeatedAtWave s) (hitFlash s).
Definition set_gameOver (s : State) (b : bool) : State :=
  mkState (playing s) (paused s) b (wave s) (time s) (score s) (level s) (xp s)
          (player s) (enemies s) (bullets s) (eBullets s) (pickups s) (nextId s)
          (lastShot s) (difficulty s) (bossActive s) (bossDefeatedAtWave s) (hitFlash s).
Definition set_difficulty (s : State) (d : Z) : State :=
  mkState (playing s) (paused s) (gameOver s) (wave s) (time s) (score s) (level s) (xp s)
          (player s) (enemies s) (bullets s) (eBullets s) (pickups s) (nextId s)
          (lastShot s) d (bossActive s) (bossDefeatedAtWave s) (hitFlash s).
Definition set_player (s : State) (p : Player.t) : State :=
  mkState (playing s) (paused s) (gameOver s) (wave s) (time s) (score s) (level s) (xp s)
          p (enemies s) (bullets s) (eBullets s) (pickups s) (nextId s)
          (lastShot s) (difficulty s) (bossActive s) (bossDefeatedAtWave s) (hitFlash s).

(** [ALL_UPGRADES]: the keys, and each key's [apply] on the player. *)
Inductive Upgrade :=
  up_damage | up_firerate | up_speed | up_maxhp | up_bullet | up_magnet | up_pierce.

Definition applyUpgrade (u : Upgrade) (s : State) : State :=
  let p := player s in
  let mk := Player.mk in
  set_player s
    match u with
    | up_damage => mk (Player.pos p) (Player.velY p) (Player.speed p) (Player.dashCooldown p)
                      (Player.maxHp p) (Player.hp p) (Player.magnet p) (Player.damage p * 1.25)
                      (Player.firerate p) (Player.bulletSpeed p) (Player.pierce p)
    | up_firerate => mk (Player.pos p) (Player.velY p) (Player.speed p) (Player.dashCooldown p)
                      (Player.maxHp p) (Player.hp p) (Player.magnet p) (Player.damage p)
                      (Player.firerate p * 1.15) (Player.bulletSpeed p) (Player.pierce p)
    | up_speed => mk (Player.pos p) (Player.velY p) (Player.speed p * 1.15) (Player.dashCooldown p)
                      (Player.maxHp p) (Player.hp p) (Player.magnet p) (Player.damage p)
                      (Player.firerate p) (Player.bulletSpeed p) (Player.pierce p)
    | up_maxhp => mk (Player.pos p) (Player.velY p) (Player.speed p) (Player.dashCooldown p)
                      (Math_round (Player.maxHp p * 1.2))
                      (Math_min (Math_round (Player.maxHp p * 1.2))
                                (Math_round (Player.hp p + Player.maxHp p * 0.2)))
                      (Player.magnet p) (Player.damage p)
                      (Player.firerate p) (Player.bulletSpeed p) (Player.pierce p)
    | up_bullet => mk (Player.pos p) (Player.velY p) (Player.speed p) (Player.dashCooldown p)
                      (Player.maxHp p) (Player.hp p) (Player.magnet p) (Player.damage p)
                      (Player.firerate p) (Player.bulletSpeed p * 1.2) (Player.pierce p)
    | up_magnet => mk (Player.pos p) (Player.velY p) (Player.speed p) (Player.dashCooldown p)
                      (Player.maxHp p) (Player.hp p) (Player.magnet p * 1.3) (Player.damage p)
                      (Player.firerate p) (Player.bulletSpeed p) (Player.pierce p)
    | up_pierce => mk (Player.pos p) (Player.velY p) (Player.speed p) (Player.dashCooldown p)
                      (Player.maxHp p) (Player.hp p) (Player.magnet p) (Player.damage p)
                      (Player.firerate p) (Player.bulletSpeed p) (Player.pierce p + 1)%Z
    end.

(** What the surrounding [App] does to the state between ticks. *)
Inductive Event :=
| ev_start                      (* Start, Reset, Try Again *)
| ev_togglePause                (* the P key and the pause button *)
| ev_levelPause                 (* the level-up effect: [paused: true] *)
| ev_choose (u : Upgrade)       (* [u.apply({ ...s, paused: false })] *)
| ev_difficulty (d : Z)         (* the Easy, Normal and Hard pills *)
| ev_options.                   (* [gameOver: false, paused: true] *)

Definition handle (ev : Event) (s : State) : State :=
  match ev with
  | ev_start => start s
  | ev_togglePause => set_paused s (negb (paused s))
  | ev_levelPause => set_paused s true
  | ev_choose u => applyUpgrade u (set_paused s false)
  | ev_difficulty d => set_difficulty s d
  | ev_options => set_paused (set_gameOver s false) true
  end.

Section Reach.
Context {host : Host}.

(** The states a session can be in: the initial one, and what ticks and the
    handlers of [App] make of them. *)
Inductive reachable : State -> Prop :=
| reach_initial : reachable initial
| reach_tick i s : reachable s -> reachable (tick i s)
| reach_event ev s : reachable s -> reachable (handle ev s).

End Reach.
End Boss.

(* ------------------------------------------------------------------ *)
(** ** The stable build (second [GameLoop] of [src/App.jsx])

    Its state has no [eBullets], [bossActive], [bossDefeatedAtWave] and
    [hitFlash], its player no [velY]; the tick carries these fields along
    unchanged. *)

Module Stable.
Section WithHost.
Context {host : Host}.

Definition movePlayer (i : Input) (dt : Q) (p0 : Player.t) : Player.t :=
  let p := Player.set_dashCooldown p0 (Math_max 0 (Player.dashCooldown p0 - dt)) in
  let dash := willDash i p in
  let np := nextPos i dt p in
  let p := if dash then Player.set_dashCooldown p 1.0 else p in
  Player.set_pos p np.

(** [scoreAdd += 15; xpAdd += 1] *)
Definition scoreAward (e : Enemy.t) : Z := 15%Z.
Definition xpAward (e : Enemy.t) : Z := 1%Z.

Definition newEnemy (ang : Q) (wave difficulty id : Z) : Enemy.t :=
  let r := 33 in
  let pos := vec3 (Math_cos ang * r) 1 (Math_sin ang * r) in
  let hp := Math_round (18 + (inject_Z wave - 1) * 6 * (0.7 + 0.3 * inject_Z difficulty)) in
  let speedE := 3 + (inject_Z wave - 1) * 0.2 + inject_Z difficulty * 0.3 in
  Enemy.mk id pos hp 0 0.9 speedE false 0 0 0 (vec3 0 0 0) 0.

Definition spawnChance (dt : Q) (wave : Z) : Q :=
  let spawnRate := 1.2 in
  dt / (spawnRate / (1 + (inject_Z wave - 1) * 0.15)).

Definition spawn (i : Input) (dt : Q) (wave difficulty : Z)
  (es : list Enemy.t) (nid : Z) (r : nat) : list Enemy.t * Z * nat :=
  if (random i r <? spawnChance dt wave) && (Z.of_nat (List.length es) <? 45)%Z
  then
    let ang := rnd (random i (r + 1)) 0 (Math_PI * 2) in
    (es ++ [newEnemy ang wave difficulty nid], (nid + 1)%Z, (r + 2)%nat)
  else (es, nid, (r + 1)%nat).

Definition lootType (roll : Q) : PickupType :=
  if roll <? 0.1 then type_heart else if roll <? 0.18 then type_shield else type_xp.

(** Enemy death, from the last index down; [idx] is the index of the head
    of [es] in [s.enemies].  A drop takes the id [s.nextId + i]; [s.nextId]
    is left as it is. *)
Fixpoint deathSweep (i : Input) (nid : Z) (idx : Z) (es : list Enemy.t)
  (st : list Pickup.t * nat) : list Enemy.t * (list Pickup.t * nat) :=
  match es with
  | [] => ([], st)
  | e :: rest =>
      let '(rest', (pk, r)) := deathSweep i nid (idx + 1) rest st in
      if Enemy.hp e <=? 0 then
        let roll := random i r in
        let pk := if roll <? 0.6
                  then pk ++ [Pickup.mk (nid + idx) (Enemy.pos e) 10 (lootType roll)]
                  else pk in
        (rest', (pk, S r))
      else (e :: rest', (pk, r))
  end.

Definition contactDamage (dt : Q) (difficulty : Z) (ppos : Vector3.t) (es : list Enemy.t) : Q :=
  fold_left (fun acc e =>
               if Vector3.distanceTo (Enemy.pos e) ppos <? Enemy.radius e + 0.8
               then acc + 10 * dt * inject_Z difficulty else acc)
            es 0.

(** Pickup attract and collect; the contact test uses the distance [d]
    measured before the attraction. *)
Definition pickupStep (dt : Q) (p : Player.t) (k : Pickup.t) (hp : Q) (xpAdd : Z)
  : option Pickup.t * Q * Z :=
  let ttl := Pickup.ttl k - dt in
  if ttl <=? 0 then (None, hp, xpAdd) else
  let d := Vector3.distanceTo (Pickup.pos k) (Player.pos p) in
  let pos :=
    if d <? 2.5 * Player.magnet p then
      let dirP := Vector3.normalize (Vector3.setY (Vector3.sub (Player.pos p) (Pickup.pos k)) 0) in
      Vector3.addScaledVector (Pickup.pos k) dirP (10 * dt)
    else Pickup.pos k in
  if d <? 1.0 then
    let xpAdd := match Pickup.type k with type_xp => (xpAdd + 1)%Z | _ => xpAdd end in
    let hp := match Pickup.type k with
              | type_heart => clamp (hp + 15) 0 (Player.maxHp p)
              | type_shield => clamp (hp + 8) 0 (Player.maxHp p)
              | type_xp => hp
              end in
    (None, hp, xpAdd)
  else (Some (Pickup.mk (Pickup.id k) pos ttl (Pickup.type k)), hp, xpAdd).

Fixpoint pickupSweep (dt : Q) (p : Player.t) (ks : list Pickup.t) (hp : Q) (xpAdd : Z)
  : list Pickup.t * Q * Z :=
  match ks with
  | [] => ([], hp, xpAdd)
  | k :: rest =>
      let '(rest', hp1, xa1) := pickupSweep dt p rest hp xpAdd in
      let '(k', hp2, xa2) := pickupStep dt p k hp1 xa1 in
      (match k' with Some k1 => k1 :: rest' | None => rest' end, hp2, xa2)
  end.

(** The first half of the tick, up to and including the enemy moves. *)
Definition advance (i : Input) (dt : Q) (prev : State) : State * nat :=
  let time' := time prev + dt in
  let p := movePlayer i dt (player prev) in
  let nid := nextId prev in
  let shoot := shoots i p (lastShot prev) in
  let bs := if shoot then bullets prev ++ [newBullet i p nid] else bullets prev in
  let lastShot' := if shoot then now i else lastShot prev in
  let nid := if shoot then (nid + 1)%Z else nid in
  let bs := bulletsStep dt 50 bs in
  let '(es, nid, r) := spawn i dt (wave prev) (difficulty prev) (enemies prev) nid 0%nat in
  let es := map (fun e => snd (seek dt (Player.pos p) e)) es in
  (mkState (playing prev) (paused prev) (gameOver prev) (wave prev) time'
           (score prev) (level prev) (xp prev) p
           es bs (eBullets prev) (pickups prev) nid lastShot' (difficulty prev)
           (bossActive prev) (bossDefeatedAtWave prev) (hitFlash prev),
   r).

(** The collisions, the enemy deaths and the contact damage: the mutated
    copy [s], and the locals [scoreAdd], [xpAdd] and [hpLoss]. *)
Definition combat (i : Input) (dt : Q) (s : State) (r : nat) : State * Z * Z * Q :=
  let p := player s in
  let '(bs, es, scoreAdd, xpAdd) := collide scoreAward xpAward (bullets s) (enemies s) in
  let bs := liveBullets bs in
  let '(es, (pk, r)) := deathSweep i (nextId s) 0 es (pickups s, r) in
  let hpLoss := contactDamage dt (difficulty s) (Player.pos p) es in
  (mkState (playing s) (paused s) (gameOver s) (wave s) (time s)
           (score s) (level s) (xp s) p
           es bs (eBullets s) pk (nextId s) (lastShot s) (difficulty s)
           (bossActive s) (bossDefeatedAtWave s) (hitFlash s),
   scoreAdd, xpAdd, hpLoss).

(** Pickup attract and collect on the copy [s], continuing [xpAdd]. *)
Definition collect (dt : Q) (s : State) (xpAdd : Z) : State * Z :=
  let p := player s in
  let '(pk, hp', xpAdd) := pickupSweep dt p (pickups s) (Player.hp p) xpAdd in
  (mkState (playing s) (paused s) (gameOver s) (wave s) (time s)
           (score s) (level s) (xp s) (Player.set_hp p hp')
           (enemies s) (bullets s) (eBullets s) pk (nextId s) (lastShot s) (difficulty s)
           (bossActive s) (bossDefeatedAtWave s) (hitFlash s),
   xpAdd).

(** The second half of the tick: the copy [s] as it stands at the [return],
    and the locals [scoreAdd], [xpAdd] and [hpLoss]. *)
Definition resolve (i : Input) (dt : Q) (s : State) (r : nat) : State * Z * Z * Q :=
  let '(s1, scoreAdd, xpAdd, hpLoss) := combat i dt s r in
  let '(s2, xpAdd) := collect dt s1 xpAdd in
  (s2, scoreAdd, xpAdd, hpLoss).

Definition simulate (i : Input) (dt : Q) (prev : State) : State * Z * Z * Q :=
  let '(s, r) := advance i dt prev in resolve i dt s r.

(** The [return] of the tick; [newHp] is computed here, after the pickups. *)
Definition publish (s : State) (scoreAdd xpAdd : Z) (hpLoss : Q) : State :=
  let lu := levelUp (xp s) xpAdd (level s) in
  let newHp := clamp (Player.hp (player s) - hpLoss) 0 (Player.maxHp (player s)) in
  let over := newHp <=? 0 in
  mkState (playing s) (paused s) over (newWave (time s) (wave s)) (time s)
          (score s + scoreAdd)%Z (level s + (if snd lu then 1 else 0))%Z (fst lu)
          (Player.set_hp (player s) newHp)
          (enemies s) (bullets s) (eBullets s) (pickups s)
          (nextId s) (lastShot s) (difficulty s)
          (bossActive s) (bossDefeatedAtWave s) (hitFlash s).

Definition tick (i : Input) (prev : State) : State :=
  let dt := dtOf i in
  if negb (playing prev) || paused prev || gameOver prev then prev
  else
    let '(s, scoreAdd, xpAdd, hpLoss) := simulate i dt prev in
    publish s scoreAdd xpAdd hpLoss.


(** Names for what the tick computes on the way, used to state its
    properties: the copy [s] before the collision step, the enemies right
    after it, the copy [s] and the local [xpAdd] before the pickup sweep,
    what the pickup sweep alone adds to [xpAdd], the copy [s] at the
    [return], and the locals [scoreAdd] and [xpAdd] of the whole tick. *)
Definition atCollision (i : Input) (prev : State) : State := fst (advance i (dtOf i) prev).
Definition collided (i : Input) (prev : State) : list Enemy.t :=
  let s := atCollision i prev in
  let '(_, es, _, _) := collide scoreAward xpAward (bullets s) (enemies s) in es.
Definition atPickups (i : Input) (prev : State) : State :=
  let '(s, r) := advance i (dtOf i) prev in
  let '(s1, _, _, _) := combat i (dtOf i) s r in s1.
Definition killXp (i : Input) (prev : State) : Z :=
  let '(s, r) := advance i (dtOf i) prev in
  let '(_, _, xa, _) := combat i (dtOf i) s r in xa.
Definition pickedXp (i : Input) (prev : State) : Z :=
  snd (collect (dtOf i) (atPickups i prev) 0).
Definition atReturn (i : Input) (prev : State) : State :=
  let '(s, _, _, _) := simulate i (dtOf i) prev in s.
Definition scoreAdd (i : Input) (prev : State) : Z :=
  let '(_, sc, _, _) := simulate i (dtOf i) prev in sc.
Definition xpAdd (i : Input) (prev : State) : Z :=
  let '(_, _, xa, _) := simulate i (dtOf i) prev in xa.

Definition run (inputs : list Input) (s : State) : State :=
  fold_left (fun s i => tick i s) inputs s.

End WithHost.
End Stable.

(* ------------------------------------------------------------------ *)
(** ** Vocabulary of the properties *)

(** The number of bosses in an enemy list. *)
Definition bossCount (es : list Enemy.t) : nat :=
  List.length (filter Enemy.isBoss es).

(** An enemy is killed between [before] and [after] when its hit points go
    from positive to at most 0; [awardSum f before after] adds [f] over the
    enemies killed between two snapshots of the same list. *)
Definition killed (ee : Enemy.t * Enemy.t) : bool :=
  (0 <? Enemy.hp (fst ee)) && (Enemy.hp (snd ee) <=? 0).
Definition awardSum (f : Enemy.t -> Z) (before after : list Enemy.t) : Z :=
  fold_right Z.add 0%Z (map (fun ee => f (snd ee)) (filter killed (combine before after))).
Definition alive (e : Enemy.t) : bool := 0 <? Enemy.hp e.

(** What the collision loops may do to an enemy: one that is already at or
    below 0 is left as it is; the id and the boss flag never change. *)
Definition evolves (e e' : Enemy.t) : Prop :=
  ((Enemy.hp e <=? 0) = true -> e' = e) /\
  Enemy.isBoss e' = Enemy.isBoss e /\ Enemy.id e' = Enemy.id e.

(** The two-halves frame: what [advance] and [resolve] never touch. *)
Definition sameProgress (s prev : State) : Prop :=
  playing s = playing prev /\ paused s = paused prev /\ gameOver s = gameOver prev /\
  wave s = wave prev /\ score s = score prev /\ level s = level prev /\
  xp s = xp prev /\ difficulty s = difficulty prev.

Section Strikes.
Context {host : Host}.

(** The enemies a bullet strikes in one pass of the inner collision loop:
    those with positive hit points within its reach; and what a strike does
    to an enemy. *)
Definition struck (b : Bullet.t) (e : Enemy.t) : bool := alive e && hits b e.
Definition strike (b : Bullet.t) (e : Enemy.t) : Enemy.t :=
  if struck b e then Enemy.set_hp e (Enemy.hp e - Bullet.damage b) else e.

End Strikes.

(** The ids in use in a state, and what it means for them to come from the
    counter: no id twice, and every id below [nextId]. *)
Definition ids (s : State) : list Z :=
  map Enemy.id (enemies s) ++ map Bullet.id (bullets s) ++
  map Bullet.id (eBullets s) ++ map Pickup.id (pickups s).
Definition uniqueIds (s : State) : Prop :=
  NoDup (ids s) /\ Forall (fun k => (k < nextId s)%Z) (ids s).

(** [occ l k] counts [k] in [l]; [below k n] is 1 for [k < n] and
    [fresh k n n'] is 1 for [n <= k < n'], else 0. *)
Definition occ (l : list Z) (k : Z) : nat := count_occ Z.eq_dec l k.
Definition below (k n : Z) : nat := if (k <? n)%Z then 1%nat else 0%nat.
Definition fresh (k n n' : Z) : nat := if ((n <=? k) && (k <? n'))%Z then 1%nat else 0%nat.

(* ------------------------------------------------------------------ *)
(** ** A host and states to evaluate the tick on *)

(** A square root that is exact on the squares of rationals (and rounds
    down elsewhere), and a cosine and sine that are exact at angle 0: all
    the examples below look straight ahead and measure such distances. *)
Definition sqrtQ (q : Q) : Q := Z.sqrt (Qnum q * Zpos (Qden q)) # Qden q.

Definition exampleHost : Host :=
  {| Math_sqrt := sqrtQ;
     Math_cos := fun a => 1 - a * a / 2;
     Math_sin := fun a => a;
     Math_PI := 3.14159 |}.

(** An input with no key held, looking straight ahead, every draw [0.5]. *)
Definition idle (dt : Q) : Input :=
  mkInput dt false false false false false false false 0 0 0 false (fun _ => 0.5).
(** The same with the mouse locked, the left button held, at time [t]. *)
Definition firing (dt t : Q) : Input :=
  mkInput dt false false false false false false true 0 0 t true (fun _ => 0.5).

(** A fresh session, and the same session paused. *)
Definition freshState : State := Boss.start Boss.initial.

(** A player at the arena centre with 50 of 100 hit points and a heart
    pickup at distance 0.5. *)
Definition heartState : State :=
  mkState true false false 1 0 0 1 0
    (Player.mk (vec3 0 1 0) 0 10 0 100 50 1 10 7 35 0)
    [] [] [] [Pickup.mk 1 (vec3 0.5 1 0) 10 type_heart] 2 0 2 false 0 0.

(** A player with xp 9 at level 1 and [n] xp pickups at distance 0.5. *)
Definition xpState (n : nat) : State :=
  mkState true false false 1 0 0 1 9
    (Player.mk (vec3 0 1 0) 0 10 0 100 100 1 10 7 35 0)
    [] [] [] (map (fun k => Pickup.mk (Z.of_nat k) (vec3 0.5 1 0) 10 type_xp) (seq 1 n))
    (Z.of_nat (S n)) 0 2 false 0 0.

(** Ten seconds into wave 1: two enemies of 18 hit points half a unit apart,
    and a bullet of the starting player (damage 10, pierce 0) about to reach
    them. *)
Definition pierceState : State :=
  mkState true false false 1 10 0 1 0
    (Player.mk (vec3 0 1 0) 0 10 0 100 100 1 10 7 35 0)
    [Enemy.mk 1 (vec3 0 1 (-10)) 18 18 0.9 3.6 false 0 0 0 (vec3 0 0 0) 0;
     Enemy.mk 2 (vec3 0.5 1 (-10)) 18 18 0.9 3.6 false 0 0 0 (vec3 0 0 0) 0]
    [Bullet.mk 3 (vec3 0 1.1 (-9)) (vec3 0 0 (-35)) 1.5 0 10] [] [] 4 0 2 false 0 0.

(** Ten seconds into wave 1: one enemy with 8 of its 18 hit points left and
    a bullet about to reach it; the ids 1 and 2 are taken, the counter
    stands at 3. *)
Definition dropState : State :=
  mkState true false false 1 10 0 1 0
    (Player.mk (vec3 0 1 0) 0 10 0 100 100 1 10 7 35 0)
    [Enemy.mk 1 (vec3 0 1 (-10)) 8 18 0.9 3.6 false 0 0 0 (vec3 0 0 0) 0]
    [Bullet.mk 2 (vec3 0 1.1 (-9)) (vec3 0 0 (-35)) 1.5 0 10] [] [] 3 0 2 false 0 0.

(** Wave 5 has just begun: two ordinary enemies, no boss yet. *)
Definition bossWaveState : State :=
  mkState true false false 5 97.01 0 1 0
    (Player.mk (vec3 0 1 0) 0 10 0 100 100 1 10 7 35 0)
    [Enemy.mk 1 (vec3 20 1 0) 41 41 0.9 4.2 false 0 0 0 (vec3 0 0 0) 0;
     Enemy.mk 2 (vec3 0 1 20) 41 41 0.9 4.2 false 0 0 0 (vec3 0 0 0) 0]
    [] [] [] 3 0 2 false 0 0.

(** A session 42.99 seconds into wave 1. *)
Definition lateState : State :=
  mkState true false false 1 42.99 0 1 0
    (Player.mk (vec3 0 1 0) 0 10 0 100 100 1 10 7 35 0)
    [] [] [] [] 1 0 2 false 0 0.

(* ================================================================== *)
(** * Properties *)

(** ** Comparisons and [clamp] *)

Lemma Qleb_le (x y : Q) : (x <=? y) = true <-> x <= y.
Proof. apply Qle_bool_iff. Qed.

Lemma Qltb_lt (x y : Q) : (x <? y) = true <-> x < y.
Proof.
  unfold Qltb. rewrite negb_true_iff. split; intro H.
  - apply Qnot_le_lt. intro L. apply Qle_bool_iff in L. congruence.
  - destruct (Qle_bool y x) eqn:E; [|reflexivity].
    apply Qle_bool_iff in E. exfalso. exact (Qlt_not_le _ _ H E).
Qed.

Lemma Qltb_ge (x y : Q) : (x <? y) = false <-> y <= x.
Proof.
  unfold Qltb. rewrite negb_false_iff. apply Qle_bool_iff.
Qed.

Lemma Qleb_gt (x y : Q) : (x <=? y) = false <-> y < x.
Proof.
  rewrite <- Qltb_lt. unfold Qltb, Qleb. destruct (Qle_bool x y); simpl; intuition congruence.
Qed.

Lemma Math_max_ge_l (a b : Q) : a <= Math_max a b.
Proof.
  unfold Math_max. destruct (a <? b) eqn:E.
  - apply Qltb_lt in E. apply Qlt_le_weak, E.
  - apply Qle_refl.
Qed.

Lemma Math_max_le (a b c : Q) : a <= c -> b <= c -> Math_max a b <= c.
Proof. unfold Math_max. destruct (a <? b); auto. Qed.

Lemma Math_min_le_l (a b : Q) : Math_min a b <= a.
Proof.
  unfold Math_min. destruct (b <? a) eqn:E.
  - apply Qltb_lt in E. apply Qlt_le_weak, E.
  - apply Qle_refl.
Qed.

(** [clamp] lands between its bounds whenever they are in order. *)
Lemma clamp_range (v lo hi : Q) : lo <= hi -> lo <= clamp v lo hi <= hi.
Proof.
  intro H. unfold clamp. split.
  - apply Math_max_ge_l.
  - apply Math_max_le; [exact H | apply Math_min_le_l].
Qed.

(** ** The tick, read off its definition *)

Ltac break_let :=
  match goal with
  | |- context [match ?e with pair _ _ => _ end] => destruct e eqn:?
  | H : context [match ?e with pair _ _ => _ end] |- _ => destruct e eqn:?
  end.

Ltac break_if :=
  match goal with
  | |- context [if ?b then _ else _] => destruct b eqn:?
  end.

Lemma active_guard (s : State) :
  negb (playing s) || paused s || gameOver s = negb (active s).
Proof. unfold active. destruct (playing s), (paused s), (gameOver s); reflexivity. Qed.

Section TickFacts.
Context {host : Host}.

Lemma boss_tick_inactive i prev : active prev = false -> Boss.tick i prev = prev.
Proof. intro H. unfold Boss.tick. rewrite active_guard, H. reflexivity. Qed.

Lemma stable_tick_inactive i prev : active prev = false -> Stable.tick i prev = prev.
Proof. intro H. unfold Stable.tick. rewrite active_guard, H. reflexivity. Qed.

Lemma boss_tick_active i prev :
  active prev = true ->
  Boss.tick i prev =
  Boss.publish (Boss.atReturn i prev) (Boss.scoreAdd i prev) (Boss.xpAdd i prev)
               (snd (Boss.simulate i (dtOf i) prev)).
Proof.
  intro H. unfold Boss.tick, Boss.atReturn, Boss.scoreAdd, Boss.xpAdd.
  rewrite active_guard, H. simpl.
  destruct (Boss.simulate i (dtOf i) prev) as [[[s sc] xa] nh]. reflexivity.
Qed.

Lemma stable_tick_active i prev :
  active prev = true ->
  Stable.tick i prev =
  Stable.publish (Stable.atReturn i prev) (Stable.scoreAdd i prev) (Stable.xpAdd i prev)
                 (snd (Stable.simulate i (dtOf i) prev)).
Proof.
  intro H. unfold Stable.tick, Stable.atReturn, Stable.scoreAdd, Stable.xpAdd.
  rewrite active_guard, H. simpl.
  destruct (Stable.simulate i (dtOf i) prev) as [[[s sc] xa] nh]. reflexivity.
Qed.

(** The two halves of the tick leave the progress counters alone; only the
    clock moves. *)

Lemma boss_advance_progress i dt prev :
  sameProgress (fst (Boss.advance i dt prev)) prev /\
  time (fst (Boss.advance i dt prev)) = time prev + dt /\
  player (fst (Boss.advance i dt prev)) = Boss.movePlayer i dt (player prev).
Proof.
  unfold Boss.advance, sameProgress. repeat break_let. simpl. intuition reflexivity.
Qed.

Lemma boss_resolve_progress i dt s r :
  sameProgress (fst (fst (fst (Boss.resolve i dt s r)))) s /\
  time (fst (fst (fst (Boss.resolve i dt s r)))) = time s.
Proof.
  unfold Boss.resolve, Boss.combat, Boss.collect, sameProgress.
  repeat break_let. simpl.
  repeat match goal with H : (_, _) = (_, _) |- _ => inversion H; subst; clear H end.
  simpl. intuition reflexivity.
Qed.

Lemma stable_advance_progress i dt prev :
  sameProgress (fst (Stable.advance i dt prev)) prev /\
  time (fst (Stable.advance i dt prev)) = time prev + dt /\
  player (fst (Stable.advance i dt prev)) = Stable.movePlayer i dt (player prev).
Proof.
  unfold Stable.advance, sameProgress. repeat break_let. simpl. intuition reflexivity.
Qed.

Lemma stable_resolve_progress i dt s r :
  sameProgress (fst (fst (fst (Stable.resolve i dt s r)))) s /\
  time (fst (fst (fst (Stable.resolve i dt s r)))) = time s.
Proof.
  unfold Stable.resolve, Stable.combat, Stable.collect, sameProgress.
  repeat break_let. simpl.
  repeat match goal with H : (_, _) = (_, _) |- _ => inversion H; subst; clear H end.
  simpl. intuition reflexivity.
Qed.

Lemma boss_atReturn_progress i prev :
  sameProgress (Boss.atReturn i prev) prev /\
  time (Boss.atReturn i prev) = time prev + dtOf i.
Proof.
  unfold Boss.atReturn, Boss.simulate.
  pose proof (boss_advance_progress i (dtOf i) prev) as A.
  destruct (Boss.advance i (dtOf i) prev) as [s r]. simpl in A.
  pose proof (boss_resolve_progress i (dtOf i) s r) as R.
  destruct (Boss.resolve i (dtOf i) s r) as [[[s' sc] xa] nh]. simpl in R.
  unfold sameProgress in *. intuition congruence.
Qed.

Lemma stable_atReturn_progress i prev :
  sameProgress (Stable.atReturn i prev) prev /\
  time (Stable.atReturn i prev) = time prev + dtOf i.
Proof.
  unfold Stable.atReturn, Stable.simulate.
  pose proof (stable_advance_progress i (dtOf i) prev) as A.
  destruct (Stable.advance i (dtOf i) prev) as [s r]. simpl in A.
  pose proof (stable_resolve_progress i (dtOf i) s r) as R.
  destruct (Stable.resolve i (dtOf i) s r) as [[[s' sc] xa] nh]. simpl in R.
  unfold sameProgress in *. intuition congruence.
Qed.

End TickFacts.

(** ** Hit points *)

Section HitPoints.
Context {host : Host}.

Lemma boss_movePlayer_hp i dt p :
  Player.hp (Boss.movePlayer i dt p) = Player.hp p /\
  Player.maxHp (Boss.movePlayer i dt p) = Player.maxHp p.
Proof.
  unfold Boss.movePlayer. cbv zeta.
  repeat break_if; split; reflexivity.
Qed.

Lemma stable_movePlayer_hp i dt p :
  Player.hp (Stable.movePlayer i dt p) = Player.hp p /\
  Player.maxHp (Stable.movePlayer i dt p) = Player.maxHp p.
Proof.
  unfold Stable.movePlayer. cbv zeta.
  repeat break_if; split; reflexivity.
Qed.

Lemma boss_pickupStep_hp dt p k hp xa :
  0 <= Player.maxHp p -> 0 <= hp <= Player.maxHp p ->
  0 <= snd (fst (Boss.pickupStep dt p k hp xa)) <= Player.maxHp p.
Proof.
  intros M H. unfold Boss.pickupStep. cbv zeta.
  repeat break_if; simpl; try exact H.
  destruct (Pickup.type k); try exact H; apply clamp_range; exact M.
Qed.

Lemma boss_pickupSweep_hp dt p ks hp xa :
  0 <= Player.maxHp p -> 0 <= hp <= Player.maxHp p ->
  0 <= snd (fst (Boss.pickupSweep dt p ks hp xa)) <= Player.maxHp p.
Proof.
  intros M H. induction ks as [|k rest IH]; simpl; [exact H|].
  destruct (Boss.pickupSweep dt p rest hp xa) as [[rest' hp1] xa1]. simpl in IH.
  pose proof (boss_pickupStep_hp dt p k hp1 xa1 M IH) as S.
  destruct (Boss.pickupStep dt p k hp1 xa1) as [[k' hp2] xa2]. exact S.
Qed.

Lemma stable_pickupStep_hp dt p k hp xa :
  0 <= Player.maxHp p -> 0 <= hp <= Player.maxHp p ->
  0 <= snd (fst (Stable.pickupStep dt p k hp xa)) <= Player.maxHp p.
Proof.
  intros M H. unfold Stable.pickupStep. cbv zeta.
  repeat break_if; simpl; try exact H.
  destruct (Pickup.type k); try exact H; apply clamp_range; exact M.
Qed.

Lemma stable_pickupSweep_hp dt p ks hp xa :
  0 <= Player.maxHp p -> 0 <= hp <= Player.maxHp p ->
  0 <= snd (fst (Stable.pickupSweep dt p ks hp xa)) <= Player.maxHp p.
Proof.
  intros M H. induction ks as [|k rest IH]; simpl; [exact H|].
  destruct (Stable.pickupSweep dt p rest hp xa) as [[rest' hp1] xa1]. simpl in IH.
  pose proof (stable_pickupStep_hp dt p k hp1 xa1 M IH) as S.
  destruct (Stable.pickupStep dt p k hp1 xa1) as [[k' hp2] xa2]. exact S.
Qed.

(** The player at the [return] of the boss build's tick, and its [newHp]:
    the hit points after the pickup sweep, and the clamp of the hit points
    before it. *)
Lemma boss_resolve_player i dt s r :
  exists pk xa hpLoss,
    player (fst (fst (fst (Boss.resolve i dt s r)))) =
      Player.set_hp (player s)
        (snd (fst (Boss.pickupSweep dt (player s) pk (Player.hp (player s)) xa))) /\
    snd (Boss.resolve i dt s r) =
      clamp (Player.hp (player s) - hpLoss) 0 (Player.maxHp (player s)).
Proof.
  unfold Boss.resolve, Boss.combat, Boss.collect. cbv zeta.
  destruct (collide _ _ _ _) as [[[bs es] sc] xa].
  destruct (Boss.eBulletsStep _ _ _) as [ebs hpLoss].
  destruct (Boss.deathSweep _ _ _ _) as [es' [[[[pk nid] act] def] r']].
  exists pk, xa, (Boss.contactDamage dt (difficulty s) (Player.pos (player s)) es' hpLoss).
  cbn [player pickups].
  destruct (Boss.pickupSweep _ _ _ _ _) as [[pk' hp'] xa']. simpl. split; reflexivity.
Qed.

Lemma stable_resolve_player i dt s r :
  exists pk xa,
    player (fst (fst (fst (Stable.resolve i dt s r)))) =
      Player.set_hp (player s)
        (snd (fst (Stable.pickupSweep dt (player s) pk (Player.hp (player s)) xa))).
Proof.
  unfold Stable.resolve, Stable.combat, Stable.collect. cbv zeta.
  destruct (collide _ _ _ _) as [[[bs es] sc] xa].
  destruct (Stable.deathSweep _ _ _ _ _) as [es' [pk r']].
  exists pk, xa. cbn [player pickups].
  destruct (Stable.pickupSweep _ _ _ _ _) as [[pk' hp'] xa']. simpl. reflexivity.
Qed.

Lemma boss_atReturn_hp i prev :
  0 <= Player.hp (player prev) <= Player.maxHp (player prev) ->
  Player.maxHp (player (Boss.atReturn i prev)) = Player.maxHp (player prev) /\
  0 <= Player.hp (player (Boss.atReturn i prev)) <= Player.maxHp (player prev) /\
  0 <= snd (Boss.simulate i (dtOf i) prev) <= Player.maxHp (player prev).
Proof.
  intros H.
  assert (M : 0 <= Player.maxHp (player prev)) by (eapply Qle_trans; apply H).
  unfold Boss.atReturn, Boss.simulate.
  destruct (boss_advance_progress i (dtOf i) prev) as (_ & _ & P).
  destruct (Boss.advance i (dtOf i) prev) as [s r]. simpl in P.
  destruct (boss_movePlayer_hp i (dtOf i) (player prev)) as [Hh Hm].
  rewrite <- P in Hh, Hm.
  destruct (boss_resolve_player i (dtOf i) s r) as (pk & xa & hpLoss & E1 & E2).
  destruct (Boss.resolve i (dtOf i) s r) as [[[s' sc] xa'] nh]. simpl in E1, E2.
  rewrite E1, E2. simpl. rewrite <- Hm. rewrite <- Hm in M. rewrite <- Hm, <- Hh in H.
  split; [reflexivity|]. split.
  - apply boss_pickupSweep_hp; assumption.
  - apply clamp_range; assumption.
Qed.

Lemma stable_atReturn_hp i prev :
  0 <= Player.hp (player prev) <= Player.maxHp (player prev) ->
  Player.maxHp (player (Stable.atReturn i prev)) = Player.maxHp (player prev) /\
  0 <= Player.hp (player (Stable.atReturn i prev)) <= Player.maxHp (player prev).
Proof.
  intros H.
  assert (M : 0 <= Player.maxHp (player prev)) by (eapply Qle_trans; apply H).
  unfold Stable.atReturn, Stable.simulate.
  destruct (stable_advance_progress i (dtOf i) prev) as (_ & _ & P).
  destruct (Stable.advance i (dtOf i) prev) as [s r]. simpl in P.
  destruct (stable_movePlayer_hp i (dtOf i) (player prev)) as [Hh Hm].
  rewrite <- P in Hh, Hm.
  destruct (stable_resolve_player i (dtOf i) s r) as (pk & xa & E1).
  destruct (Stable.resolve i (dtOf i) s r) as [[[s' sc] xa'] nh]. simpl in E1.
  rewrite E1. simpl. rewrite <- Hm. rewrite <- Hm in M. rewrite <- Hm, <- Hh in H.
  split; [reflexivity|].
  apply stable_pickupSweep_hp; assumption.
Qed.

End HitPoints.

(** ** The claims about a single tick's bookkeeping *)

Section Bookkeeping.
Context {host : Host}.


(** The level, the experience, the wave and the clock a tick publishes. *)
Lemma boss_tick_counters i prev :
  active prev = true ->
  level (Boss.tick i prev)
    = (level prev + (if snd (levelUp (xp prev) (Boss.xpAdd i prev) (level prev)) then 1 else 0))%Z /\
  xp (Boss.tick i prev) = fst (levelUp (xp prev) (Boss.xpAdd i prev) (level prev)) /\
  wave (Boss.tick i prev) = newWave (time prev + dtOf i) (wave prev) /\
  time (Boss.tick i prev) = time prev + dtOf i /\
  score (Boss.tick i prev) = (score prev + Boss.scoreAdd i prev)%Z.
Proof.
  intro A. rewrite (boss_tick_active i prev A).
  destruct (boss_atReturn_progress i prev) as [(_ & _ & _ & W & S & L & X & _) T].
  unfold Boss.publish. simpl. rewrite W, S, L, X, T. repeat split; reflexivity.
Qed.

Lemma stable_tick_counters i prev :
  active prev = true ->
  level (Stable.tick i prev)
    = (level prev + (if snd (levelUp (xp prev) (Stable.xpAdd i prev) (level prev)) then 1 else 0))%Z /\
  xp (Stable.tick i prev) = fst (levelUp (xp prev) (Stable.xpAdd i prev) (level prev)) /\
  wave (Stable.tick i prev) = newWave (time prev + dtOf i) (wave prev) /\
  time (Stable.tick i prev) = time prev + dtOf i /\
  score (Stable.tick i prev) = (score prev + Stable.scoreAdd i prev)%Z.
Proof.
  intro A. rewrite (stable_tick_active i prev A).
  destruct (stable_atReturn_progress i prev) as [(_ & _ & _ & W & S & L & X & _) T].
  unfold Stable.publish. simpl. rewrite W, S, L, X, T. repeat split; reflexivity.
Qed.

Lemma levelUp_spec (e x l : Z) :
  ((need l <= e + x)%Z -> levelUp e x l = ((e + x - need l)%Z, true)) /\
  ((e + x < need l)%Z -> levelUp e x l = ((e + x)%Z, false)).
Proof.
  unfold levelUp. split; intro H.
  - destruct (Z.leb_spec (need l) (e + x)); [reflexivity | lia].
  - destruct (Z.leb_spec (need l) (e + x)); [lia | reflexivity].
Qed.

Lemma newWave_spec (t : Q) (w : Z) :
  (25 + inject_Z w * 18 < t -> newWave t w = (w + 1)%Z) /\
  (t <= 25 + inject_Z w * 18 -> newWave t w = w).
Proof.
  unfold newWave. split; intro H.
  - apply Qltb_lt in H. rewrite H. reflexivity.
  - apply Qltb_ge in H. rewrite H. reflexivity.
Qed.

(** C4.  On a tick that runs, with [t] the elapsed time after adding this
    tick's delta, the wave goes up by exactly one if and only if [t] exceeds
    [25 + wave * 18], and stays as it is otherwise.  At wave 1 the threshold
    is 43 seconds: the wave is still 1 while [t <= 43] (so at 25 seconds
    too) and is 2 on the first tick with [43 < t]. *)
Theorem wave_advances (i : Input) (prev : State) :
  active prev = true ->
  let t := time prev + dtOf i in
  let threshold := 25 + inject_Z (wave prev) * 18 in
  (time (Boss.tick i prev) = t /\ time (Stable.tick i prev) = t) /\
  (wave (Boss.tick i prev) = (wave prev + 1)%Z <-> threshold < t) /\
  (wave (Boss.tick i prev) = wave prev <-> t <= threshold) /\
  (wave (Stable.tick i prev) = (wave prev + 1)%Z <-> threshold < t) /\
  (wave (Stable.tick i prev) = wave prev <-> t <= threshold) /\
  (wave prev = 1%Z ->
   (t <= 43 -> wave (Boss.tick i prev) = 1%Z /\ wave (Stable.tick i prev) = 1%Z) /\
   (43 < t -> wave (Boss.tick i prev) = 2%Z /\ wave (Stable.tick i prev) = 2%Z)).
Proof.
  intros A t threshold.
  destruct (boss_tick_counters i prev A) as (_ & _ & WB & TB & _).
  destruct (stable_tick_counters i prev A) as (_ & _ & WS & TS & _).
  fold t in WB, TB, WS, TS.
  destruct (newWave_spec t (wave prev)) as [Up Stay]. fold threshold in Up, Stay.
  assert (Iff1 : newWave t (wave prev) = (wave prev + 1)%Z <-> threshold < t).
  { split; [|exact Up]. intro E. destruct (Qlt_le_dec threshold t) as [L|L]; [exact L|].
    rewrite (Stay L) in E. lia. }
  assert (Iff2 : newWave t (wave prev) = wave prev <-> t <= threshold).
  { split; [|exact Stay]. intro E. destruct (Qlt_le_dec threshold t) as [L|L]; [|exact L].
    rewrite (Up L) in E. lia. }
  rewrite WB, WS, TB, TS.
  split; [split; reflexivity|].
  split; [exact Iff1|]. split; [exact Iff2|]. split; [exact Iff1|]. split; [exact Iff2|].
  intro W1.
  assert (T43 : threshold == 43) by (unfold threshold; rewrite W1; reflexivity).
  split; intro L.
  - assert (E : newWave t (wave prev) = 1%Z).
    { transitivity (wave prev); [|exact W1]. apply Iff2. rewrite T43. exact L. }
    split; exact E.
  - assert (E : newWave t (wave prev) = 2%Z).
    { replace 2%Z with (wave prev + 1)%Z by lia. apply Iff1. rewrite T43. exact L. }
    split; exact E.
Qed.

(** C7.  On a tick that runs, with [x] the experience gained in the tick,
    [e] the experience and [L] the level before it: if [e + x] reaches
    [10 + 6 * (L - 1)] the tick publishes experience [e + x] minus that
    threshold and level [L + 1]; otherwise experience [e + x] and level [L].
    So xp 9 at level 1 with one xp gained gives xp 0 and level 2. *)
Theorem level_up_rule (i : Input) (prev : State) :
  active prev = true ->
  let e := xp prev in
  let L := level prev in
  (let x := Boss.xpAdd i prev in
   ((10 + 6 * (L - 1) <= e + x)%Z ->
    xp (Boss.tick i prev) = (e + x - (10 + 6 * (L - 1)))%Z /\
    level (Boss.tick i prev) = (L + 1)%Z) /\
   ((e + x < 10 + 6 * (L - 1))%Z ->
    xp (Boss.tick i prev) = (e + x)%Z /\ level (Boss.tick i prev) = L) /\
   (e = 9%Z -> L = 1%Z -> x = 1%Z ->
    xp (Boss.tick i prev) = 0%Z /\ level (Boss.tick i prev) = 2%Z)) /\
  (let x := Stable.xpAdd i prev in
   ((10 + 6 * (L - 1) <= e + x)%Z ->
    xp (Stable.tick i prev) = (e + x - (10 + 6 * (L - 1)))%Z /\
    level (Stable.tick i prev) = (L + 1)%Z) /\
   ((e + x < 10 + 6 * (L - 1))%Z ->
    xp (Stable.tick i prev) = (e + x)%Z /\ level (Stable.tick i prev) = L) /\
   (e = 9%Z -> L = 1%Z -> x = 1%Z ->
    xp (Stable.tick i prev) = 0%Z /\ level (Stable.tick i prev) = 2%Z)).
Proof.
  intros A e L.
  destruct (boss_tick_counters i prev A) as (LB & XB & _).
  destruct (stable_tick_counters i prev A) as (LS & XS & _).
  fold e L in LB, XB, LS, XS.
  assert (N : need L = (10 + 6 * (L - 1))%Z) by (unfold need; lia).
  split; cbv zeta.
  - destruct (levelUp_spec e (Boss.xpAdd i prev) L) as [Up Stay]. rewrite N in Up, Stay.
    rewrite LB, XB. clearbody e L.
    split; [|split].
    + intro H. rewrite (Up H). cbn [fst snd]. split; reflexivity.
    + intro H. rewrite (Stay H). cbn [fst snd]. split; [reflexivity | lia].
    + intros He HL Hx. rewrite Up by lia. cbn [fst snd]. split; lia.
  - destruct (levelUp_spec e (Stable.xpAdd i prev) L) as [Up Stay]. rewrite N in Up, Stay.
    rewrite LS, XS. clearbody e L.
    split; [|split].
    + intro H. rewrite (Up H). cbn [fst snd]. split; reflexivity.
    + intro H. rewrite (Stay H). cbn [fst snd]. split; [reflexivity | lia].
    + intros He HL Hx. rewrite Up by lia. cbn [fst snd]. split; lia.
Qed.

(** C10.  A tick raises the level by at most one.  When the experience
    gained crosses two thresholds at once (that of level [L] and that of
    level [L + 1]), the tick still publishes level [L + 1] only; it consumes
    the first threshold alone, and the experience it publishes already
    reaches the threshold of the new level. *)
Theorem one_level_per_tick (i : Input) (prev : State) :
  ((level prev <= level (Boss.tick i prev) <= level prev + 1)%Z /\
   (level prev <= level (Stable.tick i prev) <= level prev + 1)%Z) /\
  (active prev = true -> (1 <= level prev)%Z ->
   ((need (level prev) + need (level prev + 1) <= xp prev + Boss.xpAdd i prev)%Z ->
    level (Boss.tick i prev) = (level prev + 1)%Z /\
    xp (Boss.tick i prev) = (xp prev + Boss.xpAdd i prev - need (level prev))%Z /\
    (need (level (Boss.tick i prev)) <= xp (Boss.tick i prev))%Z) /\
   ((need (level prev) + need (level prev + 1) <= xp prev + Stable.xpAdd i prev)%Z ->
    level (Stable.tick i prev) = (level prev + 1)%Z /\
    xp (Stable.tick i prev) = (xp prev + Stable.xpAdd i prev - need (level prev))%Z /\
    (need (level (Stable.tick i prev)) <= xp (Stable.tick i prev))%Z)).
Proof.
  split.
  - destruct (active prev) eqn:A.
    + destruct (boss_tick_counters i prev A) as (LB & _).
      destruct (stable_tick_counters i prev A) as (LS & _).
      rewrite LB, LS. split; split; break_if; lia.
    + rewrite (boss_tick_inactive i prev A), (stable_tick_inactive i prev A). lia.
  - intros A L1.
    destruct (boss_tick_counters i prev A) as (LB & XB & _).
    destruct (stable_tick_counters i prev A) as (LS & XS & _).
    assert (P : (0 <= need (level prev + 1))%Z) by (unfold need; lia).
    split; intro H.
    + destruct (levelUp_spec (xp prev) (Boss.xpAdd i prev) (level prev)) as [Up _].
      rewrite LB, XB, Up by lia. cbn [fst snd]. repeat split; lia.
    + destruct (levelUp_spec (xp prev) (Stable.xpAdd i prev) (level prev)) as [Up _].
      rewrite LS, XS, Up by lia. cbn [fst snd]. repeat split; lia.
Qed.

Lemma boss_tick_player i prev :
  active prev = true ->
  player (Boss.tick i prev) =
  Player.set_hp (player (Boss.atReturn i prev)) (snd (Boss.simulate i (dtOf i) prev)).
Proof. intro A. rewrite (boss_tick_active i prev A). reflexivity. Qed.

Lemma stable_tick_player i prev :
  active prev = true ->
  player (Stable.tick i prev) =
  Player.set_hp (player (Stable.atReturn i prev))
    (clamp (Player.hp (player (Stable.atReturn i prev)) - snd (Stable.simulate i (dtOf i) prev))
           0 (Player.maxHp (player (Stable.atReturn i prev)))).
Proof. intro A. rewrite (stable_tick_active i prev A). reflexivity. Qed.

(** C5.  From a state whose player has hit points within [0, maxHp], a tick
    publishes hit points within [0, maxHp] again, in both builds; so are the
    hit points the tick holds in its working copy after the pickup sweep,
    and the [newHp] it computes, whatever the contact damage, the enemy
    bullets and the hearts and shields of that tick. *)
Theorem hp_stays_in_range (i : Input) (prev : State) :
  0 <= Player.hp (player prev) <= Player.maxHp (player prev) ->
  (0 <= Player.hp (player (Boss.tick i prev)) <= Player.maxHp (player (Boss.tick i prev))) /\
  (0 <= Player.hp (player (Stable.tick i prev)) <= Player.maxHp (player (Stable.tick i prev))) /\
  (0 <= Player.hp (player (Boss.atReturn i prev)) <= Player.maxHp (player (Boss.atReturn i prev))) /\
  (0 <= Player.hp (player (Stable.atReturn i prev)) <= Player.maxHp (player (Stable.atReturn i prev))).
Proof.
  intro H.
  assert (M : 0 <= Player.maxHp (player prev)) by (eapply Qle_trans; apply H).
  destruct (boss_atReturn_hp i prev H) as (BM & BH & BN).
  destruct (stable_atReturn_hp i prev H) as (SM & SH).
  split; [|split; [|split]].
  - destruct (active prev) eqn:A.
    + rewrite (boss_tick_player i prev A).
      change (0 <= snd (Boss.simulate i (dtOf i) prev)
                <= Player.maxHp (player (Boss.atReturn i prev))).
      rewrite BM. exact BN.
    + rewrite (boss_tick_inactive i prev A). exact H.
  - destruct (active prev) eqn:A.
    + rewrite (stable_tick_player i prev A).
      match goal with
      | |- 0 <= Player.hp (Player.set_hp ?p ?v) <= _ =>
          change (0 <= v <= Player.maxHp p)
      end.
      apply clamp_range. rewrite SM. exact M.
    + rewrite (stable_tick_inactive i prev A). exact H.
  - rewrite BM. exact BH.
  - rewrite SM. exact SH.
Qed.

End Bookkeeping.

(** *** The bookkeeping claims at concrete states *)


Lemma wave_advances_witness :
  active lateState = true /\
  wave (@Boss.tick exampleHost (idle 0.02) lateState) = 2%Z /\
  wave (@Stable.tick exampleHost (idle 0.02) lateState) = 2%Z.
Proof.
  split; [reflexivity|].
  pose proof (@wave_advances exampleHost (idle 0.02) lateState eq_refl) as W.
  cbv zeta in W. destruct W as (_ & _ & _ & _ & _ & W).
  destruct (W eq_refl) as [_ W2]. apply W2. vm_compute. reflexivity.
Defined.

Lemma level_up_rule_witness :
  active (xpState 1) = true /\
  xp (@Boss.tick exampleHost (idle 0.02) (xpState 1)) = 0%Z /\
  level (@Boss.tick exampleHost (idle 0.02) (xpState 1)) = 2%Z.
Proof.
  split; [reflexivity|].
  pose proof (@level_up_rule exampleHost (idle 0.02) (xpState 1) eq_refl) as R.
  cbv zeta in R. destruct R as ((_ & _ & R) & _).
  apply R; [reflexivity | reflexivity | vm_compute; reflexivity].
Defined.

Lemma one_level_per_tick_witness :
  active (xpState 17) = true /\
  level (@Boss.tick exampleHost (idle 0.02) (xpState 17)) = 2%Z /\
  xp (@Boss.tick exampleHost (idle 0.02) (xpState 17)) = 16%Z.
Proof.
  split; [reflexivity|].
  destruct (@one_level_per_tick exampleHost (idle 0.02) (xpState 17)) as [_ R].
  assert (X : @Boss.xpAdd exampleHost (idle 0.02) (xpState 17) = 17%Z)
    by (vm_compute; reflexivity).
  destruct (R eq_refl) as [RB _]; [vm_compute; discriminate|].
  rewrite X in RB. destruct RB as (L & E & _); [vm_compute; discriminate|].
  split; [exact L | exact E].
Defined.

Lemma hp_stays_in_range_witness :
  0 <= Player.hp (player heartState) <= Player.maxHp (player heartState) /\
  0 <= Player.hp (player (@Stable.tick exampleHost (idle 0.02) heartState))
    <= Player.maxHp (player (@Stable.tick exampleHost (idle 0.02) heartState)).
Proof.
  assert (H : 0 <= Player.hp (player heartState) <= Player.maxHp (player heartState))
    by (split; vm_compute; discriminate).
  split; [exact H|].
  apply (@hp_stays_in_range exampleHost (idle 0.02) heartState H).
Defined.

(** ** Kills: awarded once, removed in the same tick *)

Section Kills.
Context {host : Host}.

Lemma evolves_refl e : evolves e e.
Proof. unfold evolves. auto. Qed.

Lemma evolves_trans e1 e2 e3 : evolves e1 e2 -> evolves e2 e3 -> evolves e1 e3.
Proof.
  unfold evolves. intros (A1 & B1 & C1) (A2 & B2 & C2). repeat split; try congruence.
  intro H. pose proof (A1 H) as E. subst e2. auto.
Qed.

Lemma killed_same e : killed (e, e) = false.
Proof. unfold killed, Qltb, Qleb. simpl. destruct (Qle_bool (Enemy.hp e) 0); reflexivity. Qed.

Lemma awardSum_cons f e e' es es' :
  awardSum f (e :: es) (e' :: es') =
  ((if killed (e, e') then f e' else 0) + awardSum f es es')%Z.
Proof. unfold awardSum. simpl. destruct (killed (e, e')); reflexivity. Qed.

Lemma awardSum_same f es : awardSum f es es = 0%Z.
Proof.
  induction es as [|e es IH]; [reflexivity|].
  rewrite awardSum_cons, killed_same, IH. reflexivity.
Qed.

Lemma awardSum_trans f es1 es2 es3 :
  Forall2 evolves es1 es2 -> Forall2 evolves es2 es3 ->
  awardSum f es1 es3 = (awardSum f es1 es2 + awardSum f es2 es3)%Z.
Proof.
  intro H. revert es3. induction H as [|e1 e2 es1 es2 E12 _ IH]; intros es3 H23.
  - inversion H23. reflexivity.
  - inversion H23 as [|? e3 ? es3' E23 H23']; subst.
    rewrite !awardSum_cons, (IH _ H23').
    destruct E12 as (A12 & _), E23 as (A23 & _).
    unfold killed, Qltb, Qleb in *. cbn [fst snd] in *.
    destruct (Qle_bool (Enemy.hp e1) 0) eqn:D1.
    + rewrite (A12 eq_refl) in *. rewrite D1 in *. rewrite (A23 eq_refl) in *.
      rewrite D1. simpl. lia.
    + destruct (Qle_bool (Enemy.hp e2) 0) eqn:D2.
      * rewrite (A23 eq_refl) in *. rewrite D2. simpl. lia.
      * simpl. lia.
Qed.

Lemma hitEnemies_facts f g b es :
  let '(_, es', sc, xa) := hitEnemies f g b es in
  Forall2 evolves es es' /\ sc = awardSum f es es' /\ xa = awardSum g es es'.
Proof.
  revert b. induction es as [|e rest IH]; intro b; simpl.
  - repeat split. constructor.
  - destruct (Enemy.hp e <=? 0) eqn:D.
    + specialize (IH b). destruct (hitEnemies f g b rest) as [[[b' rest'] sc] xa].
      destruct IH as (F & S & X). rewrite !awardSum_cons, killed_same.
      repeat split; [constructor; [apply evolves_refl | exact F] | lia | lia].
    + destruct (hits b e) eqn:Hit.
      * match goal with |- context [hitEnemies f g ?b1 rest] => specialize (IH b1) end.
        match goal with |- context [hitEnemies f g ?b1 rest] =>
          destruct (hitEnemies f g b1 rest) as [[[b' rest'] sc] xa] end.
        destruct IH as (F & S & X). rewrite !awardSum_cons.
        assert (K : killed (e, Enemy.set_hp e (Enemy.hp e - Bullet.damage b))
                    = (Enemy.hp e - Bullet.damage b <=? 0)).
        { unfold killed, Qltb. cbn [fst snd]. unfold Qleb in D. rewrite D. reflexivity. }
        rewrite K. subst sc xa.
        split; [constructor; [|exact F] | split; reflexivity].
        unfold evolves. repeat split. intro C. congruence.
      * specialize (IH b). destruct (hitEnemies f g b rest) as [[[b' rest'] sc] xa].
        destruct IH as (F & S & X). rewrite !awardSum_cons, killed_same.
        repeat split; [constructor; [apply evolves_refl | exact F] | lia | lia].
Qed.

Lemma Forall2_evolves_refl es : Forall2 evolves es es.
Proof. induction es; constructor; [apply evolves_refl | assumption]. Qed.

Lemma Forall2_evolves_trans es1 es2 es3 :
  Forall2 evolves es1 es2 -> Forall2 evolves es2 es3 -> Forall2 evolves es1 es3.
Proof.
  intro H. revert es3. induction H; intros es3 H23; inversion H23; subst; constructor.
  - eapply evolves_trans; eassumption.
  - auto.
Qed.

(** The collision step awards each kill once: [scoreAdd] and [xpAdd] are the
    sums of the awards over the enemies whose hit points went from positive
    to at most 0. *)
Lemma collide_facts f g bs es :
  let '(_, es', sc, xa) := collide f g bs es in
  Forall2 evolves es es' /\ sc = awardSum f es es' /\ xa = awardSum g es es'.
Proof.
  revert es. induction bs as [|b rest IH]; intro es; simpl.
  - rewrite !awardSum_same. repeat split. apply Forall2_evolves_refl.
  - pose proof (hitEnemies_facts f g b es) as H1.
    destruct (hitEnemies f g b es) as [[[b' es1] sc1] xa1].
    specialize (IH es1). destruct (collide f g rest es1) as [[[rest' es2] sc2] xa2].
    destruct H1 as (F1 & S1 & X1), IH as (F2 & S2 & X2).
    rewrite (awardSum_trans f _ _ _ F1 F2), (awardSum_trans g _ _ _ F1 F2).
    repeat split; [eapply Forall2_evolves_trans; eassumption | lia | lia].
Qed.

(** The death sweeps keep exactly the enemies with positive hit points. *)
Lemma boss_deathSweep_enemies i w es st :
  fst (Boss.deathSweep i w es st) = filter alive es.
Proof.
  induction es as [|e rest IH]; [reflexivity|]. simpl.
  destruct (Boss.deathSweep i w rest st) as [rest' [[[[pk nid] act] def] r]].
  simpl in IH. unfold alive, Qltb. unfold Qleb.
  destruct (Qle_bool (Enemy.hp e) 0); simpl.
  - repeat break_let. simpl. exact IH.
  - rewrite IH. reflexivity.
Qed.

Lemma stable_deathSweep_enemies i nid idx es st :
  fst (Stable.deathSweep i nid idx es st) = filter alive es.
Proof.
  revert idx. induction es as [|e rest IH]; intro idx; [reflexivity|]. simpl.
  specialize (IH (idx + 1)%Z).
  destruct (Stable.deathSweep i nid (idx + 1) rest st) as [rest' [pk r]].
  simpl in IH. unfold alive, Qltb. unfold Qleb.
  destruct (Qle_bool (Enemy.hp e) 0); simpl.
  - exact IH.
  - rewrite IH. reflexivity.
Qed.

Lemma filter_alive_positive es :
  Forall (fun e => 0 < Enemy.hp e) (filter alive es).
Proof.
  apply Forall_forall. intros e H. apply filter_In in H. destruct H as [_ H].
  apply Qltb_lt. exact H.
Qed.

(** The pickup sweeps add to [xpAdd] what they add to 0, and do the same
    to the pickups and the hit points whatever [xpAdd] is. *)
Lemma boss_pickupStep_shift dt p k hp xa :
  Boss.pickupStep dt p k hp xa =
  (fst (Boss.pickupStep dt p k hp 0), (xa + snd (Boss.pickupStep dt p k hp 0))%Z).
Proof.
  unfold Boss.pickupStep. cbv zeta.
  repeat break_if; cbn [fst snd]; try (f_equal; lia).
  destruct (Pickup.type k); f_equal; lia.
Qed.

Lemma boss_pickupSweep_shift dt p ks hp xa :
  Boss.pickupSweep dt p ks hp xa =
  (fst (Boss.pickupSweep dt p ks hp 0), (xa + snd (Boss.pickupSweep dt p ks hp 0))%Z).
Proof.
  induction ks as [|k rest IH]; simpl; [f_equal; lia|].
  rewrite IH. destruct (Boss.pickupSweep dt p rest hp 0) as [[r0 h0] x0]. cbn [fst snd].
  rewrite (boss_pickupStep_shift dt p k h0 (xa + x0)).
  rewrite (boss_pickupStep_shift dt p k h0 x0).
  destruct (Boss.pickupStep dt p k h0 0) as [[k' h'] x']. cbn [fst snd].
  f_equal. lia.
Qed.

Lemma stable_pickupStep_shift dt p k hp xa :
  Stable.pickupStep dt p k hp xa =
  (fst (Stable.pickupStep dt p k hp 0), (xa + snd (Stable.pickupStep dt p k hp 0))%Z).
Proof.
  unfold Stable.pickupStep. cbv zeta.
  repeat break_if; cbn [fst snd]; try (f_equal; lia).
  destruct (Pickup.type k); f_equal; lia.
Qed.

Lemma stable_pickupSweep_shift dt p ks hp xa :
  Stable.pickupSweep dt p ks hp xa =
  (fst (Stable.pickupSweep dt p ks hp 0), (xa + snd (Stable.pickupSweep dt p ks hp 0))%Z).
Proof.
  induction ks as [|k rest IH]; simpl; [f_equal; lia|].
  rewrite IH. destruct (Stable.pickupSweep dt p rest hp 0) as [[r0 h0] x0]. cbn [fst snd].
  rewrite (stable_pickupStep_shift dt p k h0 (xa + x0)).
  rewrite (stable_pickupStep_shift dt p k h0 x0).
  destruct (Stable.pickupStep dt p k h0 0) as [[k' h'] x']. cbn [fst snd].
  f_equal. lia.
Qed.

(** The combat step of the boss build, in terms of its collision step. *)
Lemma boss_combat_facts i dt s r :
  let c := collide Boss.scoreAward Boss.xpAward (bullets s) (enemies s) in
  let k := Boss.combat i dt s r in
  enemies (fst (fst (fst k))) = filter alive (snd (fst (fst c))) /\
  snd (fst (fst k)) = snd (fst c) /\ snd (fst k) = snd c.
Proof.
  unfold Boss.combat. cbv zeta.
  destruct (collide _ _ _ _) as [[[bs es] sc] xa].
  destruct (Boss.eBulletsStep _ _ _) as [ebs hpLoss].
  pose proof (boss_deathSweep_enemies i (wave s) es
                (pickups s, nextId s, bossActive s, bossDefeatedAtWave s, r)) as D.
  destruct (Boss.deathSweep _ _ _ _) as [es' [[[[pk nid] act] def] r']].
  cbn [fst snd enemies] in *. auto.
Qed.

Lemma stable_combat_facts i dt s r :
  let c := collide Stable.scoreAward Stable.xpAward (bullets s) (enemies s) in
  let k := Stable.combat i dt s r in
  enemies (fst (fst (fst k))) = filter alive (snd (fst (fst c))) /\
  snd (fst (fst k)) = snd (fst c) /\ snd (fst k) = snd c.
Proof.
  unfold Stable.combat. cbv zeta.
  destruct (collide _ _ _ _) as [[[bs es] sc] xa].
  pose proof (stable_deathSweep_enemies i (nextId s) 0 es (pickups s, r)) as D.
  destruct (Stable.deathSweep _ _ _ _ _) as [es' [pk r']].
  cbn [fst snd enemies] in *. auto.
Qed.

Lemma boss_collect_facts dt s xa :
  enemies (fst (Boss.collect dt s xa)) = enemies s /\
  snd (Boss.collect dt s xa) = (xa + snd (Boss.collect dt s 0))%Z.
Proof.
  unfold Boss.collect. cbv zeta.
  rewrite (boss_pickupSweep_shift dt (player s) (pickups s) (Player.hp (player s)) xa).
  destruct (Boss.pickupSweep _ _ _ _ 0) as [[pk hp'] x0]. cbn [fst snd enemies]. auto.
Qed.

Lemma stable_collect_facts dt s xa :
  enemies (fst (Stable.collect dt s xa)) = enemies s /\
  snd (Stable.collect dt s xa) = (xa + snd (Stable.collect dt s 0))%Z.
Proof.
  unfold Stable.collect. cbv zeta.
  rewrite (stable_pickupSweep_shift dt (player s) (pickups s) (Player.hp (player s)) xa).
  destruct (Stable.pickupSweep _ _ _ _ 0) as [[pk hp'] x0]. cbn [fst snd enemies]. auto.
Qed.

(** The kills of a whole tick, in terms of the names of its stages. *)
Lemma boss_kill_accounting i prev :
  let es0 := enemies (Boss.atCollision i prev) in
  let es1 := Boss.collided i prev in
  Forall2 evolves es0 es1 /\
  Boss.scoreAdd i prev = awardSum Boss.scoreAward es0 es1 /\
  Boss.killXp i prev = awardSum Boss.xpAward es0 es1 /\
  Boss.xpAdd i prev = (Boss.killXp i prev + Boss.pickedXp i prev)%Z /\
  enemies (Boss.atReturn i prev) = filter alive es1.
Proof.
  unfold Boss.pickedXp, Boss.atPickups, Boss.collided, Boss.atCollision, Boss.scoreAdd,
    Boss.killXp, Boss.xpAdd, Boss.atReturn, Boss.simulate, Boss.resolve.
  destruct (Boss.advance i (dtOf i) prev) as [s r]. cbn [fst].
  pose proof (collide_facts Boss.scoreAward Boss.xpAward (bullets s) (enemies s)) as C.
  pose proof (boss_combat_facts i (dtOf i) s r) as K. cbv zeta in K.
  destruct (collide _ _ _ _) as [[[bs es] sc] xa].
  destruct (Boss.combat i (dtOf i) s r) as [[[s1 sc1] xa1] nh].
  cbn [fst snd] in *. destruct K as (K1 & K2 & K3). destruct C as (C1 & C2 & C3).
  pose proof (boss_collect_facts (dtOf i) s1 xa1) as [L1 L2].
  destruct (Boss.collect (dtOf i) s1 xa1) as [s2 xa2]. cbn [fst snd] in *.
  subst. repeat split; auto. congruence.
Qed.

Lemma stable_kill_accounting i prev :
  let es0 := enemies (Stable.atCollision i prev) in
  let es1 := Stable.collided i prev in
  Forall2 evolves es0 es1 /\
  Stable.scoreAdd i prev = awardSum Stable.scoreAward es0 es1 /\
  Stable.killXp i prev = awardSum Stable.xpAward es0 es1 /\
  Stable.xpAdd i prev = (Stable.killXp i prev + Stable.pickedXp i prev)%Z /\
  enemies (Stable.atReturn i prev) = filter alive es1.
Proof.
  unfold Stable.pickedXp, Stable.atPickups, Stable.collided, Stable.atCollision,
    Stable.scoreAdd, Stable.killXp, Stable.xpAdd, Stable.atReturn, Stable.simulate,
    Stable.resolve.
  destruct (Stable.advance i (dtOf i) prev) as [s r]. cbn [fst].
  pose proof (collide_facts Stable.scoreAward Stable.xpAward (bullets s) (enemies s)) as C.
  pose proof (stable_combat_facts i (dtOf i) s r) as K. cbv zeta in K.
  destruct (collide _ _ _ _) as [[[bs es] sc] xa].
  destruct (Stable.combat i (dtOf i) s r) as [[[s1 sc1] xa1] nh].
  cbn [fst snd] in *. destruct K as (K1 & K2 & K3). destruct C as (C1 & C2 & C3).
  pose proof (stable_collect_facts (dtOf i) s1 xa1) as [L1 L2].
  destruct (Stable.collect (dtOf i) s1 xa1) as [s2 xa2]. cbn [fst snd] in *.
  subst. repeat split; auto. congruence.
Qed.

(** C6.  On a tick that runs, let [es0] be the enemies as the collision step
    finds them and [es1] the same enemies as it leaves them.  An enemy is
    killed when its hit points go from positive to at most 0 between the two.
    The score the tick publishes grows by the sum over the killed enemies of
    15 (200 for a boss), the experience added for kills is the sum of 1 (5
    for a boss), and the tick's [xpAdd] is that plus what the pickup sweep
    adds of its own; each killed enemy counts once.  The published enemy list
    is [es1] without the enemies at or below 0, so every enemy in it has
    positive hit points and no kill is left to be awarded again. *)
Theorem kills_awarded_once (i : Input) (prev : State) :
  active prev = true ->
  (let es0 := enemies (Boss.atCollision i prev) in
   let es1 := Boss.collided i prev in
   Forall2 evolves es0 es1 /\
   score (Boss.tick i prev)
     = (score prev + awardSum (fun e => if Enemy.isBoss e then 200 else 15) es0 es1)%Z /\
   Boss.killXp i prev = awardSum (fun e => if Enemy.isBoss e then 5 else 1)%Z es0 es1 /\
   Boss.xpAdd i prev = (Boss.killXp i prev + Boss.pickedXp i prev)%Z /\
   enemies (Boss.tick i prev) = filter alive es1 /\
   Forall (fun e => 0 < Enemy.hp e) (enemies (Boss.tick i prev))) /\
  (let es0 := enemies (Stable.atCollision i prev) in
   let es1 := Stable.collided i prev in
   Forall2 evolves es0 es1 /\
   score (Stable.tick i prev) = (score prev + awardSum (fun _ => 15%Z) es0 es1)%Z /\
   Stable.killXp i prev = awardSum (fun _ => 1%Z) es0 es1 /\
   Stable.xpAdd i prev = (Stable.killXp i prev + Stable.pickedXp i prev)%Z /\
   enemies (Stable.tick i prev) = filter alive es1 /\
   Forall (fun e => 0 < Enemy.hp e) (enemies (Stable.tick i prev))).
Proof.
  intro A. split; cbv zeta.
  - destruct (boss_kill_accounting i prev) as (F & S & K & X & E).
    destruct (boss_tick_counters i prev A) as (_ & _ & _ & _ & SC).
    assert (EN : enemies (Boss.tick i prev) = enemies (Boss.atReturn i prev))
      by (rewrite (boss_tick_active i prev A); reflexivity).
    rewrite SC, S, EN, E. repeat split; auto. apply filter_alive_positive.
  - destruct (stable_kill_accounting i prev) as (F & S & K & X & E).
    destruct (stable_tick_counters i prev A) as (_ & _ & _ & _ & SC).
    assert (EN : enemies (Stable.tick i prev) = enemies (Stable.atReturn i prev))
      by (rewrite (stable_tick_active i prev A); reflexivity).
    rewrite SC, S, EN, E. repeat split; auto. apply filter_alive_positive.
Qed.

End Kills.

(** ** Bosses *)

Section Bosses.
Context {host : Host}.




Lemma bossAlive_count es : Boss.bossAlive es = false <-> bossCount es = 0%nat.
Proof.
  unfold Boss.bossAlive, bossCount. induction es as [|e es IH]; simpl; [tauto|].
  destruct (Enemy.isBoss e); simpl; [split; discriminate | exact IH].
Qed.













End Bosses.

(** *** Kills and bosses at concrete states *)

Lemma kills_awarded_once_witness :
  active dropState = true /\
  score (@Boss.tick exampleHost (idle 0.02) dropState) = 15%Z /\
  enemies (@Boss.tick exampleHost (idle 0.02) dropState) = [].
Proof.
  split; [reflexivity|].
  destruct (@kills_awarded_once exampleHost (idle 0.02) dropState eq_refl) as [K _].
  cbv zeta in K. destruct K as (_ & S & _ & _ & E & _).
  rewrite S, E. split; vm_compute; reflexivity.
Defined.

(** At the start of wave 5 the tick replaces the two ordinary enemies by one
    boss with id 3 and 615 hit points, and sets [bossActive]. *)
Example boss_spawn_clears_arena :
  let s := @Boss.tick exampleHost (idle 0.02) bossWaveState in
  map (fun e => (Enemy.id e, Enemy.isBoss e, Enemy.hp e)) (enemies s) = [(3%Z, true, 615)] /\
  bossActive s = true /\ nextId s = 4%Z.
Proof. vm_compute. repeat split; reflexivity. Qed.



(** ** Waves over a run, and the pierce budget of a bullet *)

Section Runs.
Context {host : Host}.

Lemma dtOf_nonneg i : 0 <= dtx i -> 0 <= dtOf i.
Proof.
  intro H. unfold dtOf, Math_min. destruct (dtx i <? 0.05); [exact H|].
  unfold Qle. simpl. lia.
Qed.

(** With frame deltas that are not negative, a session that starts at wave 1
    is still at wave 1 as long as its clock has not passed 43 seconds. *)
Lemma boss_wave_one_until_43 inputs s :
  Forall (fun i => 0 <= dtx i) inputs ->
  wave s = 1%Z \/ 43 < time s ->
  wave (Boss.run inputs s) = 1%Z \/ 43 < time (Boss.run inputs s).
Proof.
  intro F. revert s. induction F as [|i inputs D _ IH]; intros s H; [exact H|].
  simpl. apply IH.
  destruct (active s) eqn:A; [|rewrite (boss_tick_inactive i s A); exact H].
  destruct (boss_tick_counters i s A) as (_ & _ & W & T & _).
  pose proof (dtOf_nonneg i D) as P.
  destruct H as [H|H].
  - rewrite W, T, H. unfold newWave.
    destruct (25 + inject_Z 1 * 18 <? time s + dtOf i) eqn:E; [right | left; reflexivity].
    apply Qltb_lt in E. exact E.
  - right. rewrite T. lra.
Qed.

Lemma stable_wave_one_until_43 inputs s :
  Forall (fun i => 0 <= dtx i) inputs ->
  wave s = 1%Z \/ 43 < time s ->
  wave (Stable.run inputs s) = 1%Z \/ 43 < time (Stable.run inputs s).
Proof.
  intro F. revert s. induction F as [|i inputs D _ IH]; intros s H; [exact H|].
  simpl. apply IH.
  destruct (active s) eqn:A; [|rewrite (stable_tick_inactive i s A); exact H].
  destruct (stable_tick_counters i s A) as (_ & _ & W & T & _).
  pose proof (dtOf_nonneg i D) as P.
  destruct H as [H|H].
  - rewrite W, T, H. unfold newWave.
    destruct (25 + inject_Z 1 * 18 <? time s + dtOf i) eqn:E; [right | left; reflexivity].
    apply Qltb_lt in E. exact E.
  - right. rewrite T. lra.
Qed.

Corollary fresh_session_wave_one inputs :
  Forall (fun i => 0 <= dtx i) inputs ->
  (time (Boss.run inputs freshState) <= 43 -> wave (Boss.run inputs freshState) = 1%Z) /\
  (time (Stable.run inputs freshState) <= 43 -> wave (Stable.run inputs freshState) = 1%Z).
Proof.
  intro F. split; intro T.
  - destruct (boss_wave_one_until_43 inputs freshState F (or_introl eq_refl)) as [W|W];
      [exact W | exfalso; lra].
  - destruct (stable_wave_one_until_43 inputs freshState F (or_introl eq_refl)) as [W|W];
      [exact W | exfalso; lra].
Qed.

(** What one pass of the inner collision loop does with a bullet whose
    pierce count is [k >= 0], when [n] enemies are within its reach: every
    one of the [n] is damaged; with [n <= k] the bullet goes on with [k - n]
    pierces left, and otherwise its life is set to -1. *)
Lemma hitEnemies_pierce f g b es :
  (0 <= Bullet.pierceLeft b)%Z ->
  let n := Z.of_nat (List.length (filter (struck b) es)) in
  let b' := fst (fst (fst (hitEnemies f g b es))) in
  snd (fst (fst (hitEnemies f g b es))) = map (strike b) es /\
  ((n <= Bullet.pierceLeft b)%Z ->
   Bullet.life b' = Bullet.life b /\ Bullet.pierceLeft b' = (Bullet.pierceLeft b - n)%Z) /\
  ((Bullet.pierceLeft b < n)%Z ->
   Bullet.life b' == -1 /\ Bullet.pierceLeft b' = 0%Z).
Proof.
  revert b. induction es as [|e rest IH]; intros b K; cbv zeta.
  - simpl. repeat split; lia.
  - assert (SE : struck b e = negb (Enemy.hp e <=? 0) && hits b e) by reflexivity.
    cbn [hitEnemies filter map]. unfold strike at 1.
    destruct (Enemy.hp e <=? 0) eqn:D; cbn [negb andb] in SE.
    + rewrite SE. specialize (IH b K). cbv zeta in IH.
      destruct (hitEnemies f g b rest) as [[[b' rest'] sc] xa]. cbn [fst snd] in *.
      destruct IH as (M & A & B). rewrite M. repeat split; tauto.
    + destruct (hits b e) eqn:Hit; rewrite SE.
      * set (b1 := if (Bullet.pierceLeft b <=? 0)%Z then Bullet.set_life b (-1)
                   else Bullet.set_pierceLeft b (Bullet.pierceLeft b - 1)).
        assert (S1 : forall x, struck b1 x = struck b x)
          by (intro x; unfold b1; destruct (Bullet.pierceLeft b <=? 0)%Z; reflexivity).
        assert (S2 : forall x, strike b1 x = strike b x)
          by (intro x; unfold b1; destruct (Bullet.pierceLeft b <=? 0)%Z; reflexivity).
        assert (K1 : (0 <= Bullet.pierceLeft b1)%Z).
        { unfold b1. destruct (Z.leb_spec (Bullet.pierceLeft b) 0); simpl; lia. }
        specialize (IH b1 K1). cbv zeta in IH.
        rewrite (filter_ext _ _ S1), (map_ext _ _ S2) in IH.
        destruct (hitEnemies f g b1 rest) as [[[b' rest'] sc] xa]. cbn [fst snd] in *.
        destruct IH as (M & A & B). rewrite M. cbn [List.length].
        split; [reflexivity|].
        unfold b1 in *. destruct (Z.leb_spec (Bullet.pierceLeft b) 0) as [Z0|Z0];
          cbn [Bullet.pierceLeft Bullet.life Bullet.set_life Bullet.set_pierceLeft] in *.
        -- split; [intro; lia|]. intros _.
           destruct (Z.le_gt_cases (Z.of_nat (List.length (filter (struck b) rest)))
                                   (Bullet.pierceLeft b)) as [C|C].
           ++ destruct (A C) as [L P]. rewrite L. split; [reflexivity | lia].
           ++ apply B. exact C.
        -- split.
           ++ intro C. destruct A as [L P]; [lia|]. split; [exact L | lia].
           ++ intro C. apply B. lia.
      * specialize (IH b K). cbv zeta in IH.
        destruct (hitEnemies f g b rest) as [[[b' rest'] sc] xa]. cbn [fst snd] in *.
        destruct IH as (M & A & B). rewrite M. repeat split; tauto.
Qed.

End Runs.

(** ** Ids in the build with bosses *)

Ltac indicators :=
  unfold below, fresh in *;
  repeat match goal with
         | |- context [(?a <=? ?b)%Z] => destruct (Z.leb_spec a b)
         | |- context [(?a <? ?b)%Z] => destruct (Z.ltb_spec a b)
         | H : context [(?a <=? ?b)%Z] |- _ => destruct (Z.leb_spec a b)
         | H : context [(?a <? ?b)%Z] |- _ => destruct (Z.ltb_spec a b)
         end;
  cbn [andb] in *; try lia.

Section Ids.
Context {host : Host}.

Lemma occ_app l1 l2 k : occ (l1 ++ l2) k = (occ l1 k + occ l2 k)%nat.
Proof. apply count_occ_app. Qed.

Lemma occ_one n k : occ [n] k = fresh k n (n + 1).
Proof.
  unfold occ. simpl. destruct (Z.eq_dec n k); indicators.
Qed.

Lemma occ_filter {A} (id : A -> Z) (f : A -> bool) l k :
  (occ (map id (filter f l)) k <= occ (map id l) k)%nat.
Proof.
  unfold occ. induction l as [|a l IH]; [reflexivity|]. simpl.
  destruct (f a); simpl; destruct (Z.eq_dec (id a) k); lia.
Qed.

(** Unique ids, as a count: every id occurs at most once, and only below
    the counter. *)
Lemma uniqueIds_occ l n :
  (NoDup l /\ Forall (fun k => (k < n)%Z) l) <-> (forall k, (occ l k <= below k n)%nat).
Proof.
  unfold occ. split.
  - intros [N F] k. pose proof (proj1 (NoDup_count_occ Z.eq_dec l) N k) as C.
    destruct (Nat.eq_dec (count_occ Z.eq_dec l k) 0) as [E|E]; [lia|].
    assert (I : In k l) by (apply (count_occ_In Z.eq_dec); lia).
    rewrite Forall_forall in F. specialize (F k I). indicators.
  - intro H. split.
    + apply (NoDup_count_occ Z.eq_dec). intro k. specialize (H k). indicators.
    + apply Forall_forall. intros k I.
      apply (count_occ_In Z.eq_dec) in I. specialize (H k). indicators.
Qed.

Lemma fresh_none k n : fresh k n n = 0%nat.
Proof. indicators. Qed.

Lemma fresh_split k n n' n'' :
  (n <= n')%Z -> (n' <= n'')%Z -> fresh k n n'' = (fresh k n n' + fresh k n' n'')%nat.
Proof. intros. indicators. Qed.

Lemma below_split k n n' : (n <= n')%Z -> below k n' = (below k n + fresh k n n')%nat.
Proof. intros. indicators. Qed.

Lemma occ_nil k : occ [] k = 0%nat.
Proof. reflexivity. Qed.

Lemma occ_map_same {A} (id : A -> Z) (g : A -> A) l k :
  (forall a, id (g a) = id a) -> occ (map id (map g l)) k = occ (map id l) k.
Proof. intro H. rewrite map_map. rewrite (map_ext _ _ (fun a => H a)). reflexivity. Qed.

(** Bullets keep their ids through the bullet steps and the collisions. *)
Lemma bulletsStep_ids dt range bs k :
  (occ (map Bullet.id (bulletsStep dt range bs)) k <= occ (map Bullet.id bs) k)%nat.
Proof.
  unfold bulletsStep. eapply Nat.le_trans; [apply occ_filter|].
  rewrite occ_map_same; [reflexivity | intro; reflexivity].
Qed.

Lemma liveBullets_ids bs k :
  (occ (map Bullet.id (liveBullets bs)) k <= occ (map Bullet.id bs) k)%nat.
Proof. apply occ_filter. Qed.

Lemma hitEnemies_bullet_id f g b es :
  Bullet.id (fst (fst (fst (hitEnemies f g b es)))) = Bullet.id b.
Proof.
  revert b. induction es as [|e rest IH]; intro b; [reflexivity|]. simpl.
  destruct (Enemy.hp e <=? 0).
  - specialize (IH b). destruct (hitEnemies f g b rest) as [[[b' r'] sc] xa]. exact IH.
  - destruct (hits b e).
    + match goal with |- context [hitEnemies f g ?b1 rest] =>
        specialize (IH b1); destruct (hitEnemies f g b1 rest) as [[[b' r'] sc] xa] end.
      cbn [fst] in *. rewrite IH. destruct (Bullet.pierceLeft b <=? 0)%Z; reflexivity.
    + specialize (IH b). destruct (hitEnemies f g b rest) as [[[b' r'] sc] xa]. exact IH.
Qed.

Lemma collide_bullet_ids f g bs es :
  map Bullet.id (fst (fst (fst (collide f g bs es)))) = map Bullet.id bs.
Proof.
  revert es. induction bs as [|b rest IH]; intro es; [reflexivity|]. simpl.
  pose proof (hitEnemies_bullet_id f g b es) as H.
  destruct (hitEnemies f g b es) as [[[b' es1] sc1] xa1].
  specialize (IH es1). destruct (collide f g rest es1) as [[[rest' es2] sc2] xa2].
  cbn [fst] in *. simpl. rewrite H, IH. reflexivity.
Qed.

Lemma evolves_ids es es' : Forall2 evolves es es' -> map Enemy.id es' = map Enemy.id es.
Proof.
  induction 1 as [|e e' es es' (_ & _ & I) _ IH]; [reflexivity|]. simpl. rewrite I, IH. reflexivity.
Qed.

Lemma boss_eBulletsStep_ids dt ppos bs k :
  (occ (map Bullet.id (fst (Boss.eBulletsStep dt ppos bs))) k <= occ (map Bullet.id bs) k)%nat.
Proof.
  unfold Boss.eBulletsStep. cbn [fst].
  eapply Nat.le_trans; [apply liveBullets_ids|].
  rewrite occ_map_same; [apply bulletsStep_ids|].
  intro b. destruct (Boss.eBulletHits ppos b); reflexivity.
Qed.

(** The enemy loop keeps the enemies' ids and numbers its shots from the
    counter. *)
Lemma boss_enemyStep_ids i dt w d ppos e nid r k :
  let o := Boss.enemyStep i dt w d ppos e nid r in
  Enemy.id (fst (fst (fst o))) = Enemy.id e /\
  (nid <= snd (fst o))%Z /\
  occ (map Bullet.id (snd (fst (fst o)))) k = fresh k nid (snd (fst o)).
Proof.
  unfold Boss.enemyStep, seek. cbv zeta.
  destruct (Enemy.isBoss _); [|cbn [fst snd map]; rewrite fresh_none; repeat split; lia].
  break_if; cbn [fst snd map Enemy.id Bullet.id].
  - rewrite occ_one. repeat split; lia.
  - rewrite fresh_none. repeat split; lia.
Qed.

Lemma boss_enemiesStep_ids i dt w d ppos es nid r k :
  let o := Boss.enemiesStep i dt w d ppos es nid r in
  map Enemy.id (fst (fst (fst o))) = map Enemy.id es /\
  (nid <= snd (fst o))%Z /\
  occ (map Bullet.id (snd (fst (fst o)))) k = fresh k nid (snd (fst o)).
Proof.
  revert nid r. induction es as [|e rest IH]; intros nid r; cbv zeta.
  - simpl. rewrite fresh_none. repeat split; lia.
  - simpl. pose proof (boss_enemyStep_ids i dt w d ppos e nid r k) as E. cbv zeta in E.
    destruct (Boss.enemyStep i dt w d ppos e nid r) as [[[e' shot] nid1] r1].
    specialize (IH nid1 r1). cbv zeta in IH.
    destruct (Boss.enemiesStep i dt w d ppos rest nid1 r1) as [[[rest' shots] nid2] r2].
    cbn [fst snd] in *. destruct E as (E1 & E2 & E3), IH as (I1 & I2 & I3).
    rewrite map_app, occ_app, E3, I3, (fresh_split k nid nid1 nid2) by lia.
    simpl. rewrite E1, I1. repeat split; lia.
Qed.

(** The death sweep numbers its drops from the counter. *)
Lemma boss_deathSweep_ids i w es pk nid act def r k :
  let o := Boss.deathSweep i w es (pk, nid, act, def, r) in
  let nid' := snd (fst (fst (fst (snd o)))) in
  (nid <= nid')%Z /\
  occ (map Pickup.id (fst (fst (fst (fst (snd o)))))) k
    = (occ (map Pickup.id pk) k + fresh k nid nid')%nat.
Proof.
  cbv zeta. induction es as [|e rest IH].
  - simpl. rewrite fresh_none. split; lia.
  - simpl.
    destruct (Boss.deathSweep i w rest (pk, nid, act, def, r))
      as [rest' [[[[pk1 nid1] act1] def1] r1]].
    cbn [fst snd] in *. destruct IH as [I1 I2].
    destruct (Enemy.hp e <=? 0); [|cbn [fst snd]; split; assumption].
    destruct (random i r1 <? (if Enemy.isBoss e then 1.0 else 0.6)).
    + destruct (Enemy.isBoss e); cbn [fst snd];
        rewrite map_app, occ_app, I2; cbn [map Pickup.id]; rewrite occ_one;
        rewrite (fresh_split k nid nid1 (nid1 + 1)) by lia; split; lia.
    + destruct (Enemy.isBoss e); cbn [fst snd]; split; assumption.
Qed.

(** The pickup sweep only removes pickups. *)
Lemma boss_pickupSweep_ids dt p ks hp xa k :
  (occ (map Pickup.id (fst (fst (Boss.pickupSweep dt p ks hp xa)))) k
   <= occ (map Pickup.id ks) k)%nat.
Proof.
  induction ks as [|c rest IH]; [reflexivity|]. simpl.
  destruct (Boss.pickupSweep dt p rest hp xa) as [[rest' hp1] xa1]. cbn [fst] in IH.
  assert (S : match fst (fst (Boss.pickupStep dt p c hp1 xa1)) with
              | Some c1 => Pickup.id c1 = Pickup.id c | None => True end).
  { unfold Boss.pickupStep. cbv zeta. repeat break_if; cbn [fst]; auto. }
  destruct (Boss.pickupStep dt p c hp1 xa1) as [[c' hp2] xa2]. cbn [fst] in *.
  unfold occ in *. destruct c' as [c1|]; simpl.
  - rewrite S. destruct (Z.eq_dec (Pickup.id c) k); lia.
  - destruct (Z.eq_dec (Pickup.id c) k); lia.
Qed.

Lemma boss_bossSpawn_ids i s r k :
  let o := Boss.bossSpawn i s r in
  (nextId s <= snd (fst (fst o)))%Z /\
  (occ (map Enemy.id (fst (fst (fst o)))) k
   <= occ (map Enemy.id (enemies s)) k + fresh k (nextId s) (snd (fst (fst o))))%nat.
Proof.
  unfold Boss.bossSpawn. cbv zeta. destruct (Boss.bossDue s); cbn [fst snd].
  - cbn [map Boss.newBoss Enemy.id]. rewrite occ_one. split; lia.
  - rewrite fresh_none. split; lia.
Qed.

Lemma boss_spawnNormal_ids i dt w d act es nid r k :
  let o := Boss.spawnNormal i dt w d act es nid r in
  (nid <= snd (fst o))%Z /\
  occ (map Enemy.id (fst (fst o))) k
    = (occ (map Enemy.id es) k + fresh k nid (snd (fst o)))%nat.
Proof.
  unfold Boss.spawnNormal. cbv zeta. repeat break_if; cbn [fst snd];
    try (rewrite fresh_none; split; lia).
  rewrite map_app, occ_app. cbn [map Boss.newEnemy Enemy.id]. rewrite occ_one. split; lia.
Qed.

Lemma ids_occ s k :
  occ (ids s) k =
  (occ (map Enemy.id (enemies s)) k + occ (map Bullet.id (bullets s)) k +
   occ (map Bullet.id (eBullets s)) k + occ (map Pickup.id (pickups s)) k)%nat.
Proof. unfold ids. rewrite !occ_app. lia. Qed.

(** The first half of the tick: ids grow by fresh ones only. *)
Lemma boss_advance_ids i dt prev k :
  let s := fst (Boss.advance i dt prev) in
  (nextId prev <= nextId s)%Z /\
  (occ (ids s) k <= occ (ids prev) k + fresh k (nextId prev) (nextId s))%nat.
Proof.
  cbv zeta. rewrite !ids_occ. unfold Boss.advance. cbv zeta.
  pose proof (boss_bossSpawn_ids i prev 0%nat k) as B. cbv zeta in B.
  destruct (Boss.bossSpawn i prev 0%nat) as [[[es1 n1] act1] r1]. cbn [fst snd] in B.
  set (sh := shoots i (Boss.movePlayer i dt (player prev)) (lastShot prev)).
  set (n2 := if sh then (n1 + 1)%Z else n1).
  set (bs1 := if sh then bullets prev ++ [newBullet i (Boss.movePlayer i dt (player prev)) n1]
              else bullets prev).
  assert (S : (n1 <= n2)%Z /\
              occ (map Bullet.id bs1) k = (occ (map Bullet.id (bullets prev)) k + fresh k n1 n2)%nat).
  { unfold n2, bs1. destruct sh.
    - rewrite map_app, occ_app. cbn [map newBullet Bullet.id]. rewrite occ_one. split; lia.
    - rewrite fresh_none. split; lia. }
  clearbody n2 bs1.
  pose proof (bulletsStep_ids dt 60 bs1 k) as BS.
  pose proof (boss_spawnNormal_ids i dt (wave prev) (difficulty prev) act1 es1 n2 r1 k) as N.
  cbv zeta in N.
  destruct (Boss.spawnNormal i dt (wave prev) (difficulty prev) act1 es1 n2 r1)
    as [[es2 n3] r2]. cbn [fst snd] in N.
  pose proof (boss_enemiesStep_ids i dt (wave prev) (difficulty prev)
                (Player.pos (Boss.movePlayer i dt (player prev))) es2 n3 r2 k) as E.
  cbv zeta in E.
  destruct (Boss.enemiesStep i dt (wave prev) (difficulty prev)
              (Player.pos (Boss.movePlayer i dt (player prev))) es2 n3 r2)
    as [[[es3 shots] n4] r3]. cbn [fst snd] in E.
  cbn [fst enemies bullets eBullets pickups nextId].
  destruct B as [B1 B2], S as [S1 S2], N as [N1 N2], E as (E1 & E2 & E3).
  rewrite map_app, occ_app, E1, E3, N2.
  rewrite (fresh_split k (nextId prev) n1 n4), (fresh_split k n1 n2 n4),
    (fresh_split k n2 n3 n4) by lia.
  split; lia.
Qed.

Lemma boss_combat_ids i dt s r k :
  let s1 := fst (fst (fst (Boss.combat i dt s r))) in
  (nextId s <= nextId s1)%Z /\
  (occ (ids s1) k <= occ (ids s) k + fresh k (nextId s) (nextId s1))%nat.
Proof.
  cbv zeta. rewrite !ids_occ. unfold Boss.combat. cbv zeta.
  pose proof (collide_facts Boss.scoreAward Boss.xpAward (bullets s) (enemies s)) as C.
  pose proof (collide_bullet_ids Boss.scoreAward Boss.xpAward (bullets s) (enemies s)) as CB.
  destruct (collide Boss.scoreAward Boss.xpAward (bullets s) (enemies s))
    as [[[bs1 es1] sc] xa]. cbn [fst] in CB. destruct C as (C & _).
  pose proof (boss_eBulletsStep_ids dt (Player.pos (player s)) (eBullets s) k) as EB.
  destruct (Boss.eBulletsStep dt (Player.pos (player s)) (eBullets s)) as [ebs hpLoss].
  cbn [fst] in EB.
  pose proof (boss_deathSweep_enemies i (wave s) es1
                (pickups s, nextId s, bossActive s, bossDefeatedAtWave s, r)) as DE.
  pose proof (boss_deathSweep_ids i (wave s) es1 (pickups s) (nextId s) (bossActive s)
                (bossDefeatedAtWave s) r k) as D. cbv zeta in D.
  destruct (Boss.deathSweep i (wave s) es1
              (pickups s, nextId s, bossActive s, bossDefeatedAtWave s, r))
    as [es2 [[[[pk nid] act] def] r']]. cbn [fst snd] in *.
  cbn [fst enemies bullets eBullets pickups nextId]. destruct D as [D1 D2].
  pose proof (liveBullets_ids bs1 k) as LB. rewrite CB in LB.
  pose proof (occ_filter Enemy.id alive es1 k) as FE.
  rewrite (evolves_ids _ _ C) in FE. subst es2.
  rewrite D2. split; lia.
Qed.

Lemma boss_collect_ids dt s xa k :
  let s1 := fst (Boss.collect dt s xa) in
  nextId s1 = nextId s /\ (occ (ids s1) k <= occ (ids s) k)%nat.
Proof.
  cbv zeta. rewrite !ids_occ. unfold Boss.collect. cbv zeta.
  pose proof (boss_pickupSweep_ids dt (player s) (pickups s) (Player.hp (player s)) xa k) as P.
  destruct (Boss.pickupSweep dt (player s) (pickups s) (Player.hp (player s)) xa)
    as [[pk hp'] xa']. cbn [fst] in *.
  cbn [enemies bullets eBullets pickups nextId]. split; lia.
Qed.

(** A tick of the build with bosses keeps the old ids apart from the new
    ones: no id occurs more often than before, except the ids the counter
    has handed out during the tick, which occur at most once. *)
Lemma boss_tick_ids i prev k :
  (nextId prev <= nextId (Boss.tick i prev))%Z /\
  (occ (ids (Boss.tick i prev)) k
   <= occ (ids prev) k + fresh k (nextId prev) (nextId (Boss.tick i prev)))%nat.
Proof.
  destruct (active prev) eqn:A;
    [|rewrite (boss_tick_inactive i prev A), fresh_none; split; lia].
  rewrite (boss_tick_active i prev A).
  assert (E : forall s a b c, ids (Boss.publish s a b c) = ids s /\
                              nextId (Boss.publish s a b c) = nextId s)
    by (intros; split; reflexivity).
  destruct (E (Boss.atReturn i prev) (Boss.scoreAdd i prev) (Boss.xpAdd i prev)
              (snd (Boss.simulate i (dtOf i) prev))) as [E1 E2].
  rewrite E1, E2. clear E E1 E2.
  unfold Boss.atReturn, Boss.simulate, Boss.resolve.
  pose proof (boss_advance_ids i (dtOf i) prev k) as Ad. cbv zeta in Ad.
  destruct (Boss.advance i (dtOf i) prev) as [s r]. cbn [fst] in Ad.
  pose proof (boss_combat_ids i (dtOf i) s r k) as Co. cbv zeta in Co.
  destruct (Boss.combat i (dtOf i) s r) as [[[s1 sc] xa] nh]. cbn [fst] in Co.
  pose proof (boss_collect_ids (dtOf i) s1 xa k) as Cl. cbv zeta in Cl.
  destruct (Boss.collect (dtOf i) s1 xa) as [s2 xa2]. cbn [fst] in Cl.
  destruct Ad as [A1 A2], Co as [C1 C2], Cl as [L1 L2].
  rewrite L1, (fresh_split k (nextId prev) (nextId s) (nextId s1)) by lia.
  split; lia.
Qed.

Lemma boss_tick_uniqueIds i prev : uniqueIds prev -> uniqueIds (Boss.tick i prev).
Proof.
  unfold uniqueIds. rewrite !uniqueIds_occ. intros H k.
  destruct (boss_tick_ids i prev k) as [N O]. specialize (H k).
  rewrite (below_split k (nextId prev) (nextId (Boss.tick i prev)) N). lia.
Qed.

Lemma boss_handle_ids ev s :
  (ids (Boss.handle ev s) = ids s /\ nextId (Boss.handle ev s) = nextId s) \/
  ids (Boss.handle ev s) = [].
Proof. destruct ev; simpl; auto. Qed.

(** In the build with bosses every reachable state has unique ids, all of
    them below the counter. *)
Lemma boss_reachable_uniqueIds s : Boss.reachable s -> uniqueIds s.
Proof.
  induction 1 as [|i s _ IH|ev s _ IH].
  - split; constructor.
  - apply boss_tick_uniqueIds, IH.
  - unfold uniqueIds in *. destruct (boss_handle_ids ev s) as [[E N]|E].
    + rewrite E, N. exact IH.
    + rewrite E. split; constructor.
Qed.
End Ids.

(** ** Where the code departs from the claims *)

(** C9.  In the build with bosses the heal of a heart is lost: with the
    player at the arena centre on 50 of 100 hit points and a heart at
    distance 0.5, the tick removes the pickup and publishes 50 hit points.
    The stable build, on the same state, publishes 65. *)
Theorem heart_heal_lost :
  Player.hp (player (@Boss.tick exampleHost (idle 0.02) heartState)) = 50 /\
  pickups (@Boss.tick exampleHost (idle 0.02) heartState) = [] /\
  Player.hp (player (@Boss.atReturn exampleHost (idle 0.02) heartState)) = 65 /\
  Player.hp (player (@Stable.tick exampleHost (idle 0.02) heartState)) = 65 /\
  pickups (@Stable.tick exampleHost (idle 0.02) heartState) = [].
Proof. vm_compute. repeat split; reflexivity. Qed.

(** C1.  A bullet with pierce 0 that is within reach of two enemies in the
    same tick damages both of them before it is removed, in both builds. *)
Theorem pierce_zero_hits_two :
  map Bullet.pierceLeft (bullets pierceState) = [0%Z] /\
  map Enemy.hp (enemies pierceState) = [18; 18] /\
  map Enemy.hp (enemies (@Boss.tick exampleHost (idle 0.02) pierceState)) = [8; 8] /\
  bullets (@Boss.tick exampleHost (idle 0.02) pierceState) = [] /\
  map Enemy.hp (enemies (@Stable.tick exampleHost (idle 0.02) pierceState)) = [8; 8] /\
  bullets (@Stable.tick exampleHost (idle 0.02) pierceState) = [].
Proof. vm_compute. repeat split; reflexivity. Qed.

(** C2.  In the stable build a drop takes the id [nextId + i] and leaves the
    counter alone.  From a state with unique ids, after a kill the pickup
    has id 3 and the counter is still 3, and the bullet shot on the next
    tick gets the id 3 as well: the ids are no longer unique.  (The build
    with bosses keeps them unique, see [boss_reachable_uniqueIds].) *)
Theorem stable_drop_id_reused :
  let s1 := @Stable.tick exampleHost (idle 0.02) dropState in
  let s2 := @Stable.tick exampleHost (firing 0.02 11) s1 in
  uniqueIds dropState /\
  map Pickup.id (pickups s1) = [3%Z] /\ nextId s1 = 3%Z /\
  map Bullet.id (bullets s2) = [3%Z] /\ map Pickup.id (pickups s2) = [3%Z] /\
  ~ uniqueIds s2.
Proof.
  assert (E : let s1 := @Stable.tick exampleHost (idle 0.02) dropState in
              let s2 := @Stable.tick exampleHost (firing 0.02 11) s1 in
              map Pickup.id (pickups s1) = [3%Z] /\ nextId s1 = 3%Z /\
              map Bullet.id (bullets s2) = [3%Z] /\ map Pickup.id (pickups s2) = [3%Z] /\
              ids s2 = [3%Z; 3%Z])
    by (vm_compute; repeat split; reflexivity).
  cbv zeta in *. destruct E as (E1 & E2 & E3 & E4 & E5).
  split; [|split; [exact E1|split; [exact E2|split; [exact E3|split; [exact E4|]]]]].
  - split.
    + repeat constructor; simpl; intuition discriminate.
    + repeat constructor.
  - intros [N _]. rewrite E5 in N. inversion N as [|? ? I _]; subst.
    apply I. left. reflexivity.
Qed.
